(** * The training loop of [src/train.py]

    A shallow embedding of the function [train] and of the script body
    ([__main__]) of [src/train.py], followed by the properties of the
    epoch loop, of the checkpoint policy and of the failure behaviour.

    The numerical framework (tensors, the model, the optimizer, the
    feature extractor, the metrics, the data loaders, the writers of
    [utils]) is not part of the file: it is an interface, [Framework],
    whose operations are functions that may answer with an exception.
    What the interface fixes is what the calls of [train] can touch:
    - [model(inputs)] reads the weights, the mode and the random generators
      and may advance the generators; it does not write the weights;
    - [loss.backward()] writes the gradient buffers, [optimizer.zero_grad()]
      clears them, [optimizer.step()] writes the weights and the optimizer
      state;
    - the feature extractor, the losses and the metrics are functions of
      their tensors (no optimizer holds the extractor's weights);
    - a data loader yields a finite list of batches, drawn from the
      generators when its iteration starts, and has a length.

    Numbers. A Python float is an IEEE binary64 number ([PrimFloat.float]).
    The losses and the metrics answer with zero-dimensional tensors of
    torch's default dtype, float32, which the script never changes. Such a
    tensor is read as the number it holds (every float32 is a binary64
    number, and [.item()] returns it), and what [train] computes on these
    tensors ([0.5 * t], [t + u], [0.0 + t], [t / len(loader)]) is computed
    in float32 by the IEEE operations, rounding to nearest, ties to even
    ([tensor_mul], [tensor_add], [tensor_div]): what torch does on the CPU
    (an accelerator may form the quotient by a length otherwise, through
    the reciprocal). Only [train_loss] and [val_loss], which add
    [loss.item()], are Python floats.

    Scope. [train] is embedded as the script runs it: the module globals
    that it reads ([EPOCHS], [SAVE_DIR_ROOT], [MODEL_NAME]) are bound, and
    building the extractor and the metrics and moving the model and the
    batches to the device (lines 37-38, 44-46, 56, 82) are taken to succeed
    and to change nothing. The progress bars and the formatting of the
    printed lines are left out. *)

From Stdlib Require Import ZArith Floats String.
From stdpp Require Import base list.

Module Train.

(** ** Exceptions *)

(** What a Python call can raise here: the exceptions that the statements
    of [train] raise themselves (a division by a length that is 0, a read
    of the local [outputs] before it is bound, a write into a history
    outside its bounds), and whatever a collaborator raises. *)
Inductive exn : Type :=
| ZeroDivisionError
| UnboundLocalError
| IndexError
| Raised (msg : string).

Definition result (A : Type) : Type := (exn + A)%type.

(** ** Numbers *)

(** [float(n)] for a Python [int] that is a length. *)
Definition float_of_nat (n : nat) : float :=
  SF2Prim (binary_normalize prec emax (Z.of_nat n) 0 false).

(** *** Zero-dimensional float32 tensors *)

(** The format of float32: 24 bits of precision, exponents up to 128. *)
Definition prec32 : Z := 24.
Definition emax32 : Z := 128.

(** The float32 nearest to a number (ties to even). The operations of
    [SpecFloat] below round what they compute; they hand back an operand
    as it is when the other one is a zero, hence the rounding after
    them. *)
Definition round32 (x : spec_float) : spec_float :=
  match x with
  | S754_finite s m e =>
      binary_normalize prec32 emax32 (cond_Zopp s (Zpos m)) e s
  | _ => x
  end.

(** [t + u], and [0.0 + t] for the Python float [0.0]. *)
Definition tensor_add (x y : float) : float :=
  SF2Prim (round32 (SFadd prec32 emax32 (Prim2SF x) (Prim2SF y))).

(** [c * t] for a Python float [c] that float32 holds, as 0.5. *)
Definition tensor_mul (c x : float) : float :=
  SF2Prim (round32 (SFmul prec32 emax32 (Prim2SF c) (Prim2SF x))).

(** A Python [int] that is a length, as a float32 scalar. *)
Definition float32_of_nat (n : nat) : float :=
  SF2Prim (binary_normalize prec32 emax32 (Z.of_nat n) 0 false).

(** [t / n] for a Python [int] [n]: a tensor again, infinite or not a
    number when [n] is 0; no exception. *)
Definition tensor_div (x : float) (n : nat) : float :=
  SF2Prim (round32 (SFdiv prec32 emax32 (Prim2SF x)
                          (Prim2SF (float32_of_nat n)))).

(** The three running values of one pass, [(loss, psnr, ssim)]: [loss] is
    a Python float, [psnr] and [ssim] are what zero-dimensional tensors
    hold. *)
Record EpochStats : Type := mkStats {
  loss : float;
  psnr : float;
  ssim : float }.

(** ** The framework *)

Class Framework : Type := {
  tensor : Type;      (* torch.Tensor: a batch of images or of features *)
  params : Type;      (* the weights of the model *)
  grads : Type;       (* the .grad buffers of the weights *)
  optstate : Type;    (* the state of the optimizer *)
  rng : Type;         (* the state of the random generators *)

  (* random.seed, np.random.seed, torch.manual_seed, torch.cuda.manual_seed* *)
  manual_seed : Z -> rng;
  (* Mix(): fresh weights drawn from the generator *)
  Mix : rng -> params * rng;
  (* optim.Adam(model.parameters(), lr=1e-3) *)
  Adam : params -> optstate;
  no_grads : grads;

  (* model(inputs), in training (true) or evaluation (false) mode *)
  model_forward : params -> bool -> tensor -> rng -> result tensor * rng;
  (* models.vgg19(weights=IMAGENET1K_V1).features[:16] *)
  vgg : tensor -> result tensor;
  (* F.mse_loss, and nn.MSELoss() *)
  mse_loss : tensor -> tensor -> result float;
  (* PeakSignalNoiseRatio(), StructuralSimilarityIndexMeasure() *)
  psnr_metric : tensor -> tensor -> result float;
  ssim_metric : tensor -> tensor -> result float;

  (* optimizer.zero_grad() *)
  zero_grad : grads -> grads;
  (* loss.backward(): weights, inputs, outputs, targets, gradients so far *)
  backward : params -> tensor -> tensor -> tensor -> grads -> result grads;
  (* optimizer.step() *)
  optimizer_step : optstate -> params -> grads -> result (optstate * params);

  (* utils.save_model and utils.save_output_images: the error of the write,
     if any *)
  save_model_error :
    params -> optstate -> float -> float -> float -> nat -> option exn;
  save_output_images_error : tensor -> nat -> bool -> option exn }.

Section State.

Context `{F : Framework}.

Definition batch : Type := (tensor * tensor)%type.

(** A [DataLoader]: [len(loader)] and the batches of one iteration, which
    are drawn (shuffled) from the generator when the iteration starts. *)
Record DataLoader : Type := mkLoader {
  dl_len : nat;
  dl_iter : rng -> list batch * rng }.

(** ** Effects *)

(** What a run does to the outside, the calls that change the model or the
    optimizer, and the exceptions raised. *)
Inductive event : Type :=
| EvZeroGrad
| EvBackward
| EvStep
| EvSaveModel (w : params) (o : optstate)
              (val_loss val_psnr val_ssim : float) (epoch : nat)
| EvSaveOutputImages (outs : tensor) (epoch : nat) (best : bool)
| EvPrintEpoch (epoch n_epoch : nat) (train_stats val_stats : EpochStats)
| EvPrintCompleted (time_elapsed : float)
| EvRaise (e : exn).

(** The state of a run: the model and optimizer, the generator, the clock
    that [time.time()] reads, and the local variables of [train] that live
    across epochs. *)
Record world : Type := mkWorld {
  model_params : params;
  model_training : bool;
  param_grads : grads;
  optimizer_state : optstate;
  generator : rng;
  clock : nat -> float;
  ticks : nat;
  train_losses : list float;
  val_losses : list float;
  best_psnr : float;
  outputs : option tensor }.

Definition set_model_params (v : params) (w : world) : world :=
  mkWorld v (model_training w) (param_grads w) (optimizer_state w)
          (generator w) (clock w) (ticks w) (train_losses w) (val_losses w)
          (best_psnr w) (outputs w).
Definition set_model_training (v : bool) (w : world) : world :=
  mkWorld (model_params w) v (param_grads w) (optimizer_state w)
          (generator w) (clock w) (ticks w) (train_losses w) (val_losses w)
          (best_psnr w) (outputs w).
Definition set_param_grads (v : grads) (w : world) : world :=
  mkWorld (model_params w) (model_training w) v (optimizer_state w)
          (generator w) (clock w) (ticks w) (train_losses w) (val_losses w)
          (best_psnr w) (outputs w).
Definition set_optimizer_state (v : optstate) (w : world) : world :=
  mkWorld (model_params w) (model_training w) (param_grads w) v
          (generator w) (clock w) (ticks w) (train_losses w) (val_losses w)
          (best_psnr w) (outputs w).
Definition set_generator (v : rng) (w : world) : world :=
  mkWorld (model_params w) (model_training w) (param_grads w)
          (optimizer_state w) v (clock w) (ticks w) (train_losses w)
          (val_losses w) (best_psnr w) (outputs w).
Definition set_ticks (v : nat) (w : world) : world :=
  mkWorld (model_params w) (model_training w) (param_grads w)
          (optimizer_state w) (generator w) (clock w) v (train_losses w)
          (val_losses w) (best_psnr w) (outputs w).
Definition set_train_losses (v : list float) (w : world) : world :=
  mkWorld (model_params w) (model_training w) (param_grads w)
          (optimizer_state w) (generator w) (clock w) (ticks w) v
          (val_losses w) (best_psnr w) (outputs w).
Definition set_val_losses (v : list float) (w : world) : world :=
  mkWorld (model_params w) (model_training w) (param_grads w)
          (optimizer_state w) (generator w) (clock w) (ticks w)
          (train_losses w) v (best_psnr w) (outputs w).
Definition set_best_psnr (v : float) (w : world) : world :=
  mkWorld (model_params w) (model_training w) (param_grads w)
          (optimizer_state w) (generator w) (clock w) (ticks w)
          (train_losses w) (val_losses w) v (outputs w).
Definition set_outputs (v : option tensor) (w : world) : world :=
  mkWorld (model_params w) (model_training w) (param_grads w)
          (optimizer_state w) (generator w) (clock w) (ticks w)
          (train_losses w) (val_losses w) (best_psnr w) v.
Definition set_clock (v : nat -> float) (w : world) : world :=
  mkWorld (model_params w) (model_training w) (param_grads w)
          (optimizer_state w) (generator w) v (ticks w) (train_losses w)
          (val_losses w) (best_psnr w) (outputs w).

(** ** The monad of the run: state, events, and an exception that ends it *)

(** What an action leaves: the events it caused, in order, the state, and
    its value or the exception that ended it. *)
Record outcome (A : Type) : Type := mkOutcome {
  events : list event;
  final : world;
  res : result A }.
Arguments mkOutcome {A} _ _ _.
Arguments events {A} _.
Arguments final {A} _.
Arguments res {A} _.

Definition M (A : Type) : Type := world -> outcome A.

Definition ret {A} (a : A) : M A := fun w => mkOutcome [] w (inr a).

(** There is no [try] in the file: an exception skips all that follows. *)
Definition bind {A B} (m : M A) (k : A -> M B) : M B :=
  fun w =>
    match m w with
    | mkOutcome evs w' (inl e) => mkOutcome evs w' (inl e)
    | mkOutcome evs w' (inr a) =>
        match k a w' with
        | mkOutcome evs' w'' r => mkOutcome (evs ++ evs') w'' r
        end
    end.

(** [raise e]: the exception is noted among the events. *)
Definition raise {A} (e : exn) : M A :=
  fun w => mkOutcome [EvRaise e] w (inl e).

Definition emit (ev : event) : M unit := fun w => mkOutcome [ev] w (inr tt).
Definition gets {A} (f : world -> A) : M A :=
  fun w => mkOutcome [] w (inr (f w)).
Definition modify (f : world -> world) : M unit :=
  fun w => mkOutcome [] (f w) (inr tt).

(** The answer of a collaborator. *)
Definition call {A} (r : result A) : M A :=
  match r with
  | inl e => raise e
  | inr a => ret a
  end.

(** [for x in xs: body(x)] *)
Fixpoint for_each {A} (xs : list A) (body : A -> M unit) : M unit :=
  match xs with
  | [] => ret tt
  | x :: rest => bind (body x) (fun _ => for_each rest body)
  end.

End State.

Arguments mkOutcome {F A} _ _ _.
Arguments events {F A} _.
Arguments final {F A} _.
Arguments res {F A} _.

Declare Scope run_scope.
Delimit Scope run_scope with run.
Notation "x <- c1 ;; c2" := (bind c1 (fun x => c2))
  (at level 100, c1 at next level, right associativity) : run_scope.
Notation "c1 ;; c2" := (bind c1 (fun _ => c2))
  (at level 100, right associativity) : run_scope.
Open Scope run_scope.

Section Loop.

Context `{F : Framework}.

(** ** The collaborators as actions *)

(** [time.time()] *)
Definition time_time : M float :=
  now <- gets (fun w => clock w (ticks w)) ;;
  modify (fun w => set_ticks (S (ticks w)) w) ;;
  ret now.

(** [iter(loader)] *)
Definition iterate (dl : DataLoader) : M (list batch) :=
  g <- gets generator ;;
  modify (set_generator (snd (dl_iter dl g))) ;;
  ret (fst (dl_iter dl g)).

(** [model.train()] and [model.eval()] *)
Definition model_train : M unit := modify (set_model_training true).
Definition model_eval : M unit := modify (set_model_training false).

(** [optimizer.zero_grad()] *)
Definition optimizer_zero_grad : M unit :=
  emit EvZeroGrad ;;
  modify (fun w => set_param_grads (zero_grad (param_grads w)) w).

(** [outputs = model(inputs)] *)
Definition model (inputs : tensor) : M tensor :=
  weights <- gets model_params ;;
  training <- gets model_training ;;
  g <- gets generator ;;
  let r := model_forward weights training inputs g in
  modify (set_generator (snd r)) ;;
  outs <- call (fst r) ;;
  modify (set_outputs (Some outs)) ;;
  ret outs.

(** [loss.backward()] *)
Definition loss_backward (inputs outs targets : tensor) : M unit :=
  emit EvBackward ;;
  weights <- gets model_params ;;
  g <- gets param_grads ;;
  g' <- call (backward weights inputs outs targets g) ;;
  modify (set_param_grads g').

(** [optimizer.step()] *)
Definition optimizer_step_ : M unit :=
  emit EvStep ;;
  o <- gets optimizer_state ;;
  weights <- gets model_params ;;
  g <- gets param_grads ;;
  op <- call (optimizer_step o weights g) ;;
  modify (fun w => set_model_params (snd op) (set_optimizer_state (fst op) w)).

(** [save_model(model, optimizer, val_loss, val_psnr, val_ssim, epoch,
    SAVE_DIR_ROOT, MODEL_NAME, device)] *)
Definition save_model (val_loss val_psnr val_ssim : float) (epoch : nat)
  : M unit :=
  weights <- gets model_params ;;
  o <- gets optimizer_state ;;
  emit (EvSaveModel weights o val_loss val_psnr val_ssim epoch) ;;
  match save_model_error weights o val_loss val_psnr val_ssim epoch with
  | Some e => raise e
  | None => ret tt
  end.

(** [save_output_images(outputs, SAVE_DIR_ROOT, epoch, MODEL_NAME, device)],
    with [best] when the call passes the further argument [True]. *)
Definition save_output_images (outs : tensor) (epoch : nat) (best : bool)
  : M unit :=
  emit (EvSaveOutputImages outs epoch best) ;;
  match save_output_images_error outs epoch best with
  | Some e => raise e
  | None => ret tt
  end.

(** Reading the local variable [outputs]. *)
Definition read_outputs : M tensor :=
  o <- gets outputs ;;
  match o with
  | Some t => ret t
  | None => raise UnboundLocalError
  end.

(** [x / len(loader)] for a Python float [x]. *)
Definition pydiv (x : float) (n : nat) : M float :=
  if Nat.eqb n 0 then raise ZeroDivisionError
  else ret (x / float_of_nat n)%float.

(** ** [train], lines 34 to 121 *)

Definition perceptual_loss_weight : float := 0.5%float.

(** Lines 55 to 70: the batches of the training pass, with the running sums
    [train_loss], [train_psnr], [train_ssim]. The composed loss is a
    tensor, and [train_loss] adds the Python float [loss.item()];
    [train_psnr] and [train_ssim] are the Python float 0.0 before the first
    batch and tensors after it. *)
Fixpoint train_loop (criterion : tensor -> tensor -> result float)
    (batches : list batch) (train_loss train_psnr train_ssim : float)
  : M EpochStats :=
  match batches with
  | [] => ret (mkStats train_loss train_psnr train_ssim)
  | (inputs, targets) :: rest =>
      optimizer_zero_grad ;;
      outs <- model inputs ;;
      loss0 <- call (criterion outs targets) ;;
      feat_o <- call (vgg outs) ;;
      feat_t <- call (vgg targets) ;;
      m <- call (mse_loss feat_o feat_t) ;;
      let perceptual_loss := tensor_mul perceptual_loss_weight m in
      let loss1 := tensor_add loss0 perceptual_loss in
      let train_loss := (train_loss + loss1)%float in
      p <- call (psnr_metric outs targets) ;;
      let train_psnr := tensor_add train_psnr p in
      s <- call (ssim_metric outs targets) ;;
      let train_ssim := tensor_add train_ssim s in
      loss_backward inputs outs targets ;;
      optimizer_step_ ;;
      train_loop criterion rest train_loss train_psnr train_ssim
  end.

(** Lines 81 to 97: the batches of the validation pass of [epoch]. *)
Fixpoint val_loop (criterion : tensor -> tensor -> result float)
    (epoch : nat) (batches : list batch) (val_loss val_psnr val_ssim : float)
  : M EpochStats :=
  match batches with
  | [] => ret (mkStats val_loss val_psnr val_ssim)
  | (inputs, targets) :: rest =>
      optimizer_zero_grad ;;
      outs <- model inputs ;;
      loss0 <- call (criterion outs targets) ;;
      feat_o <- call (vgg outs) ;;
      feat_t <- call (vgg targets) ;;
      m <- call (mse_loss feat_o feat_t) ;;
      let perceptual_loss := tensor_mul perceptual_loss_weight m in
      let loss1 := tensor_add loss0 perceptual_loss in
      let val_loss := (val_loss + loss1)%float in
      p <- call (psnr_metric outs targets) ;;
      let val_psnr := tensor_add val_psnr p in
      s <- call (ssim_metric outs targets) ;;
      let val_ssim := tensor_add val_ssim s in
      (if Nat.eqb ((epoch + 1) mod 20) 0
       then save_output_images outs epoch false
       else ret tt) ;;
      val_loop criterion epoch rest val_loss val_psnr val_ssim
  end.

(** Lines 72 to 74 and 99 to 101: the sums over [len(loader)]. The first
    division is of a Python float and raises when the length is 0; the
    other two are reached with a length that is not 0, and are divisions of
    tensors (after no batch, of the Python float 0.0, with the same
    quotient 0.0). *)
Definition finalize (sums : EpochStats) (n : nat) : M EpochStats :=
  l <- pydiv (loss sums) n ;;
  let p := tensor_div (psnr sums) n in
  let s := tensor_div (ssim sums) n in
  ret (mkStats l p s).

(** Lines 51 to 74. *)
Definition train_pass (criterion : tensor -> tensor -> result float)
    (dl : DataLoader) : M EpochStats :=
  model_train ;;
  batches <- iterate dl ;;
  sums <- train_loop criterion batches 0%float 0%float 0%float ;;
  finalize sums (dl_len dl).

(** Lines 76 to 101. *)
Definition val_pass (criterion : tensor -> tensor -> result float)
    (dl : DataLoader) (epoch : nat) : M EpochStats :=
  model_eval ;;
  batches <- iterate dl ;;
  sums <- val_loop criterion epoch batches 0%float 0%float 0%float ;;
  finalize sums (dl_len dl).

(** Lines 103 to 106. *)
Definition checkpoint (val_stats : EpochStats) (epoch : nat) : M unit :=
  best <- gets best_psnr ;;
  if (best <? psnr val_stats)%float then
    save_model (loss val_stats) (psnr val_stats) (ssim val_stats) epoch ;;
    outs <- read_outputs ;;
    save_output_images outs epoch true
  else ret tt.

(** [history[i] = x] on a numpy array: outside the bounds it raises. *)
Definition setitem (history : list float) (i : nat) (x : float)
  : result (list float) :=
  if Nat.ltb i (length history) then inr (<[i := x]> history)
  else inl IndexError.

(** Lines 108 to 117: the two losses into the histories, and the summary. *)
Definition record_epoch (n_epoch epoch : nat)
    (train_stats val_stats : EpochStats) : M unit :=
  history <- gets train_losses ;;
  history <- call (setitem history epoch (loss train_stats)) ;;
  modify (set_train_losses history) ;;
  history <- gets val_losses ;;
  history <- call (setitem history epoch (loss val_stats)) ;;
  modify (set_val_losses history) ;;
  emit (EvPrintEpoch (epoch + 1) n_epoch train_stats val_stats).

(** Lines 51 to 117: the body of [for epoch in range(n_epoch)]. *)
Definition run_epoch (criterion : tensor -> tensor -> result float)
    (n_epoch : nat) (train_dl val_dl : DataLoader) (epoch : nat) : M unit :=
  train_stats <- train_pass criterion train_dl ;;
  val_stats <- val_pass criterion val_dl epoch ;;
  checkpoint val_stats epoch ;;
  record_epoch n_epoch epoch train_stats val_stats.

(** Lines 40 to 42: the locals that [train] creates before the loop. *)
Definition train_init (n_epoch : nat) : M unit :=
  modify (set_train_losses (replicate n_epoch 0%float)) ;;
  modify (set_val_losses (replicate n_epoch 0%float)) ;;
  modify (set_best_psnr 0%float).

Definition train (criterion : tensor -> tensor -> result float)
    (n_epoch : nat) (train_dl val_dl : DataLoader) : M unit :=
  train_init n_epoch ;;
  since <- time_time ;;
  for_each (seq 0 n_epoch) (run_epoch criterion n_epoch train_dl val_dl) ;;
  now <- time_time ;;
  let time_elapsed := (now - since)%float in
  emit (EvPrintCompleted time_elapsed).

(** ** The script, lines 124 to 183 *)

(** What a run finds when it starts: the state of the random generators and
    the clock. *)
Record Env : Type := mkEnv {
  env_generator : rng;
  env_clock : nat -> float }.

Definition seed_value : Z := 42.
Definition EPOCHS : nat := 200.

(** Lines 125 to 130: every generator is set from the seed. *)
Definition seed_all (s : Z) (g : rng) : rng := manual_seed s.

(** Line 180: [criterion = nn.MSELoss()]. *)
Definition main_criterion : tensor -> tensor -> result float := mse_loss.

(** The state when [train] is called on line 183. The locals of [train]
    are not bound yet: [train] binds them first. *)
Definition main_world (env : Env) : world :=
  let g := seed_all seed_value (env_generator env) in
  let weights := fst (Mix g) in
  let g := snd (Mix g) in
  let optimizer := Adam weights in
  {| model_params := weights; model_training := true;
     param_grads := no_grads; optimizer_state := optimizer;
     generator := g; clock := env_clock env; ticks := 0;
     train_losses := []; val_losses := []; best_psnr := 0%float;
     outputs := None |}.

Definition main (env : Env) (train_dl val_dl : DataLoader) : outcome unit :=
  train main_criterion EPOCHS train_dl val_dl (main_world env).

End Loop.

(** ** What can be observed of a run *)

Section Observations.

Context `{F : Framework}.

(** The checkpoints written: [(epoch, val_psnr)] of each [save_model]. *)
Definition checkpoints (evs : list event) : list (nat * float) :=
  flat_map (fun ev => match ev with
                      | EvSaveModel _ _ _ p _ e => [(e, p)]
                      | _ => []
                      end) evs.

(** The image writes with the given flag: [(outputs, epoch)] of each. *)
Definition images (best : bool) (evs : list event) : list (tensor * nat) :=
  flat_map (fun ev => match ev with
                      | EvSaveOutputImages o e b =>
                          if Bool.eqb b best then [(o, e)] else []
                      | _ => []
                      end) evs.

(** The epoch summaries printed: the number shown, and the validation
    statistics. *)
Definition summaries (evs : list event) : list (nat * EpochStats) :=
  flat_map (fun ev => match ev with
                      | EvPrintEpoch k _ _ vs => [(k, vs)]
                      | _ => []
                      end) evs.

(** The exceptions raised. *)
Definition raised (evs : list event) : list exn :=
  flat_map (fun ev => match ev with
                      | EvRaise e => [e]
                      | _ => []
                      end) evs.

(** The two histories. *)
Definition histories (w : world) : list float * list float :=
  (train_losses w, val_losses w).

End Observations.

(** ** The specification's words *)

Section Specification.

Context `{F : Framework}.

(** Section 4.1, the Loss Composer: a function of the output and the target
    alone. *)
Definition ReconstructionLoss
    (criterion : tensor -> tensor -> result float) (O T : tensor)
  : result float := criterion O T.

Definition Features (X : tensor) : result tensor := vgg X.

Definition PerceptualLoss (FO FT : tensor) : result float := mse_loss FO FT.

Definition composed_loss (criterion : tensor -> tensor -> result float)
    (O T : tensor) : result float :=
  match ReconstructionLoss criterion O T with
  | inl e => inl e
  | inr rec =>
      match Features O with
      | inl e => inl e
      | inr FO =>
          match Features T with
          | inl e => inl e
          | inr FT =>
              match PerceptualLoss FO FT with
              | inl e => inl e
              | inr perc => inr (tensor_add rec (tensor_mul 0.5 perc))
              end
          end
      end
  end.

(** Section 3, EpochStats: the arithmetic means of the per-batch values,
    that is their sum, added from 0.0 in the order of the batches, over
    their number: in the arithmetic of Python floats for the losses, in that
    of float32 tensors for the PSNR and the SSIM. *)
Definition sum_floats (xs : list float) : float :=
  fold_left PrimFloat.add xs 0%float.

Definition arithmetic_mean (xs : list float) : float :=
  (sum_floats xs / float_of_nat (length xs))%float.

Definition sum_tensors (xs : list float) : float :=
  fold_left tensor_add xs 0%float.

Definition tensor_mean (xs : list float) : float :=
  tensor_div (sum_tensors xs) (length xs).

Definition mean_stats (vals : list EpochStats) : EpochStats :=
  mkStats (arithmetic_mean (map loss vals))
          (tensor_mean (map psnr vals))
          (tensor_mean (map ssim vals)).

(** The running sums after the batches of values [vals], from [a], [b],
    [c]. *)
Definition sums_from (a b c : float) (vals : list EpochStats) : EpochStats :=
  mkStats (fold_left PrimFloat.add (map loss vals) a)
          (fold_left tensor_add (map psnr vals) b)
          (fold_left tensor_add (map ssim vals) c).

(** The values of one training batch: what lines 56 to 70 compute. *)
Definition train_batch_values (criterion : tensor -> tensor -> result float)
    (b : batch) : M EpochStats :=
  optimizer_zero_grad ;;
  outs <- model (fst b) ;;
  l <- call (composed_loss criterion outs (snd b)) ;;
  p <- call (psnr_metric outs (snd b)) ;;
  s <- call (ssim_metric outs (snd b)) ;;
  loss_backward (fst b) outs (snd b) ;;
  optimizer_step_ ;;
  ret (mkStats l p s).

(** What a training batch does to the state and to the outside when the
    lines of the loss and of the metrics (61 to 67) are taken out. *)
Definition train_batch_effects (b : batch) : M unit :=
  optimizer_zero_grad ;;
  outs <- model (fst b) ;;
  loss_backward (fst b) outs (snd b) ;;
  optimizer_step_.

(** The same for a validation batch (lines 87 to 93 taken out). *)
Definition val_batch_effects (epoch : nat) (b : batch) : M unit :=
  optimizer_zero_grad ;;
  outs <- model (fst b) ;;
  if Nat.eqb ((epoch + 1) mod 20) 0
  then save_output_images outs epoch false
  else ret tt.

(** The values of one validation batch: what lines 82 to 97 compute. *)
Definition val_batch_values (criterion : tensor -> tensor -> result float)
    (epoch : nat) (b : batch) : M EpochStats :=
  optimizer_zero_grad ;;
  outs <- model (fst b) ;;
  l <- call (composed_loss criterion outs (snd b)) ;;
  p <- call (psnr_metric outs (snd b)) ;;
  s <- call (ssim_metric outs (snd b)) ;;
  (if Nat.eqb ((epoch + 1) mod 20) 0
   then save_output_images outs epoch false
   else ret tt) ;;
  ret (mkStats l p s).

(** The values of the batches, one after the other. *)
Fixpoint per_batch (step : batch -> M EpochStats) (bs : list batch)
  : M (list EpochStats) :=
  match bs with
  | [] => ret []
  | b :: rest =>
      v <- step b ;;
      vs <- per_batch step rest ;;
      ret (v :: vs)
  end.

(** Section 4.2, the Epoch Runner in the two modes. *)
Definition train_pass_spec (criterion : tensor -> tensor -> result float)
    (dl : DataLoader) : M EpochStats :=
  model_train ;;
  batches <- iterate dl ;;
  vals <- per_batch (train_batch_values criterion) batches ;;
  ret (mean_stats vals).

Definition val_pass_spec (criterion : tensor -> tensor -> result float)
    (dl : DataLoader) (epoch : nat) : M EpochStats :=
  model_eval ;;
  batches <- iterate dl ;;
  vals <- per_batch (val_batch_values criterion epoch) batches ;;
  ret (mean_stats vals).

(** A loader whose [len] is the number of batches of every iteration. *)
Definition well_formed (dl : DataLoader) : Prop :=
  forall g, length (fst (dl_iter dl g)) = dl_len dl.

End Specification.

(** Section 4.3 and section 8, as the specification states them: the best
    validation PSNR so far, starting from 0.0, and the epochs that exceed
    it. *)
Fixpoint checkpoints_spec (best : float) (epoch : nat) (val_psnrs : list float)
  : list (nat * float) :=
  match val_psnrs with
  | [] => []
  | p :: rest =>
      if (best <? p)%float
      then (epoch, p) :: checkpoints_spec p (S epoch) rest
      else checkpoints_spec best (S epoch) rest
  end.

Definition best_record_spec (val_psnrs : list float) : float :=
  fold_left (fun best p => if (best <? p)%float then p else best)
            val_psnrs 0%float.

(** Section 4.2: on an epoch whose number is a multiple of 20 the validation
    pass emits one image write, of the last batch's outputs. *)
Definition one_emission_per_qualifying_epoch : Prop :=
  forall (F : Framework) (criterion : tensor -> tensor -> result float)
         (dl : DataLoader) (epoch : nat) (w : world) (stats : EpochStats),
    (epoch + 1) mod 20 = 0 ->
    res (val_pass criterion dl epoch w) = inr stats ->
    exists outs tag,
      images false (events (val_pass criterion dl epoch w)) = [(outs, tag)] /\
      outputs (final (val_pass criterion dl epoch w)) = Some outs.

(** ** Frames: what an action leaves alone *)

Section Frames.

Context `{F : Framework}.

(** A relation between the state before, the events, and the state after,
    that holds of doing nothing and of raising, and composes. *)
Class Frame (R : world -> list event -> world -> Prop) : Prop := {
  frame_refl : forall w, R w [] w;
  frame_trans : forall w1 e1 w2 e2 w3,
      R w1 e1 w2 -> R w2 e2 w3 -> R w1 (e1 ++ e2) w3;
  frame_raise : forall w e, R w [EvRaise e] w }.

Definition keeps (R : world -> list event -> world -> Prop) {A} (m : M A)
  : Prop :=
  forall w, R w (events (m w)) (final (m w)).

(** Weights and optimizer untouched, and neither [backward] nor [step]
    called. *)
Definition unstepped : world -> list event -> world -> Prop :=
  fun w evs w' =>
    model_params w' = model_params w /\
    optimizer_state w' = optimizer_state w /\
    ~ In EvBackward evs /\ ~ In EvStep evs.

(** The weights change only where [optimizer.step()] is called. *)
Definition stepped_only : world -> list event -> world -> Prop :=
  fun w evs w' => model_params w' = model_params w \/ In EvStep evs.

(** The locals that the epoch's passes leave alone, and events of a given
    kind only. *)
Definition locals_kept (allowed : event -> Prop)
  : world -> list event -> world -> Prop :=
  fun w evs w' =>
    train_losses w' = train_losses w /\
    val_losses w' = val_losses w /\
    best_psnr w' = best_psnr w /\
    Forall allowed evs.

(** The events of the training pass: calls on the model and the optimizer. *)
Definition training_event (ev : event) : Prop :=
  match ev with
  | EvZeroGrad | EvBackward | EvStep | EvRaise _ => True
  | _ => False
  end.

(** The events of the validation pass of [epoch]. *)
Definition validation_event (epoch : nat) (ev : event) : Prop :=
  match ev with
  | EvZeroGrad | EvRaise _ => True
  | EvSaveOutputImages _ e best =>
      e = epoch /\ best = false /\ (epoch + 1) mod 20 = 0
  | _ => False
  end.

(** The events of the checkpoint of [epoch] with statistics [vs]. *)
Definition checkpoint_event (epoch : nat) (vs : EpochStats) (ev : event)
  : Prop :=
  match ev with
  | EvRaise _ => True
  | EvSaveModel _ _ l p s e =>
      e = epoch /\ l = loss vs /\ p = psnr vs /\ s = ssim vs
  | EvSaveOutputImages _ e best => e = epoch /\ best = true
  | _ => False
  end.

(** An action ends in one of two ways: with a value and nothing raised, or
    with the exception that was raised last and only. *)
Definition exits_cleanly {A} (o : outcome A) : Prop :=
  match res o with
  | inr _ => raised (events o) = []
  | inl e => raised (events o) = [e] /\
             exists pre, events o = pre ++ [EvRaise e]
  end.

Definition propagates {A} (m : M A) : Prop := forall w, exits_cleanly (m w).

(** An action that does not read the clock does the same under any clock. *)
Definition clock_free {A} (m : M A) : Prop :=
  forall c w,
    m (set_clock c w) =
    mkOutcome (events (m w)) (set_clock c (final (m w))) (res (m w)).

End Frames.

(** ** Further observations of a run *)

Section Accounts.

Context `{F : Framework}.

(** The epoch summaries printed, whole: the number shown, the total shown,
    the training and the validation statistics. *)
Definition epoch_lines (evs : list event)
  : list (nat * nat * EpochStats * EpochStats) :=
  flat_map (fun ev => match ev with
                      | EvPrintEpoch k n ts vs => [(k, n, ts, vs)]
                      | _ => []
                      end) evs.

(** The completion lines printed: the elapsed time of each. *)
Definition completions (evs : list event) : list float :=
  flat_map (fun ev => match ev with
                      | EvPrintCompleted x => [x]
                      | _ => []
                      end) evs.

(** The calls on the optimizer and on the loss: [zero_grad], [backward],
    [step], in order. *)
Definition optimizer_calls (evs : list event) : list event :=
  flat_map (fun ev => match ev with
                      | EvZeroGrad | EvBackward | EvStep => [ev]
                      | _ => []
                      end) evs.

(** What each [save_model] was given: the weights, the optimizer state and
    the epoch. *)
Definition saved_models (evs : list event)
  : list (params * optstate * nat) :=
  flat_map (fun ev => match ev with
                      | EvSaveModel p o _ _ _ e => [(p, o, e)]
                      | _ => []
                      end) evs.

(** The statistics and the epoch that each [save_model] was given. *)
Definition saved_stats (evs : list event) : list (EpochStats * nat) :=
  flat_map (fun ev => match ev with
                      | EvSaveModel _ _ l p s e => [(mkStats l p s, e)]
                      | _ => []
                      end) evs.

(** The outcome of lines 108 to 117 when [epoch] is an index of both
    histories. *)
Definition recorded (n_epoch epoch : nat) (ts vs : EpochStats) (w : world)
  : outcome unit :=
  mkOutcome [EvPrintEpoch (epoch + 1) n_epoch ts vs]
            (set_val_losses (<[epoch := loss vs]> (val_losses w))
               (set_train_losses (<[epoch := loss ts]> (train_losses w)) w))
            (inr tt).

(** What ends an epoch before its summary: nothing more, or the
    [IndexError] of a history. *)
Definition unrecorded (evp : list event) : Prop :=
  evp = [] \/ evp = [EvRaise IndexError].

(** An exception of a collaborator's own: none of the three that the
    statements of [train] raise. *)
Definition foreign (e : exn) : Prop :=
  match e with
  | Raised _ => True
  | _ => False
  end.

Definition own_answer {A} (r : result A) : Prop :=
  match r with
  | inl e => foreign e
  | inr _ => True
  end.

Definition own_error (o : option exn) : Prop :=
  match o with
  | Some e => foreign e
  | None => True
  end.

(** Collaborators that raise exceptions of their own only. *)
Definition collaborators_raise_their_own
    (criterion : tensor -> tensor -> result float) : Prop :=
  (forall p t x g, own_answer (fst (model_forward p t x g))) /\
  (forall a b, own_answer (criterion a b)) /\
  (forall a, own_answer (vgg a)) /\
  (forall a b, own_answer (mse_loss a b)) /\
  (forall a b, own_answer (psnr_metric a b)) /\
  (forall a b, own_answer (ssim_metric a b)) /\
  (forall p i o t g, own_answer (backward p i o t g)) /\
  (forall o p g, own_answer (optimizer_step o p g)) /\
  (forall p o l q s e, own_error (save_model_error p o l q s e)) /\
  (forall o e b, own_error (save_output_images_error o e b)).

(** What a run may raise besides: the division by the length of a loader
    that is 0. *)
Definition expected (train_dl val_dl : DataLoader) (e : exn) : Prop :=
  foreign e \/
  (e = ZeroDivisionError /\ (dl_len train_dl = 0 \/ dl_len val_dl = 0)).

(** The number of [optimizer.step()]. *)
Definition steps (evs : list event) : nat :=
  length (flat_map (fun ev => match ev with
                              | EvStep => [tt]
                              | _ => []
                              end) evs).

(** [n] times the list [l]. *)
Definition times {A} (n : nat) (l : list A) : list A :=
  concat (replicate n l).

(** The optimizer calls of one epoch over [nt] training batches and [nv]
    validation batches. *)
Definition calls_of_epoch (nt nv : nat) : list event :=
  times nt [EvZeroGrad; EvBackward; EvStep] ++ replicate nv EvZeroGrad.

(** The clock and the count of its readings are as before, and no
    completion line is printed. *)
Definition time_kept : world -> list event -> world -> Prop :=
  fun w evs w' =>
    clock w' = clock w /\ ticks w' = ticks w /\ completions evs = [].

(** The mode of the model is as before. *)
Definition mode_kept : world -> list event -> world -> Prop :=
  fun w evs w' => model_training w' = model_training w.

End Accounts.

(** ** A small framework, to run the loop *)

(** A tensor is one number, the weights count the optimizer steps, and the
    model answers by the table [forward]. The PSNR of a batch is its
    output. *)
Definition scripted (forward : nat -> result float) : Framework := {|
  tensor := float; params := nat; grads := nat; optstate := nat; rng := nat;
  manual_seed := Z.to_nat;
  Mix := fun g => (0, S g);
  Adam := fun _ => 0;
  no_grads := 0;
  model_forward := fun p _ _ g => (forward p, g);
  vgg := fun t => inr t;
  mse_loss := fun a b => inr ((a - b) * (a - b))%float;
  psnr_metric := fun o _ => inr o;
  ssim_metric := fun _ _ => inr 1%float;
  zero_grad := fun _ => 0;
  backward := fun _ _ _ _ g => inr (S g);
  optimizer_step := fun o p _ => inr (S o, S p);
  save_model_error := fun _ _ _ _ _ _ => None;
  save_output_images_error := fun _ _ _ => None |}.

(** Validation PSNR 20.0 after the first epoch's step, 18.0 after the
    second's. *)
Definition psnr_20_then_18 (p : nat) : result float :=
  match p with
  | 1 => inr 20%float
  | 2 => inr 18%float
  | _ => inr 5%float
  end.

(** The float32 nearest to 0.1 for the first batch, to 0.2 after the
    optimizer has stepped. *)
Definition tenth_then_fifth (p : nat) : result float :=
  match p with
  | 0 => inr 0x1.99999ap-4%float
  | _ => inr 0x1.99999ap-3%float
  end.

(** A model that raises once the optimizer has stepped. *)
Definition fails_after_one_step (p : nat) : result float :=
  match p with
  | 0 => inr 5%float
  | _ => inl (Raised "CUDA out of memory")
  end.

(** A loader that yields the same batches at every iteration. *)
Definition loader_of (F : Framework) (bs : list (@batch F))
  : @DataLoader F :=
  mkLoader (length bs) (fun g => (bs, g)).

Definition one_batch (forward : nat -> result float)
  : @DataLoader (scripted forward) :=
  loader_of (scripted forward) [(1%float, 1%float)].

Definition two_batches (forward : nat -> result float)
  : @DataLoader (scripted forward) :=
  loader_of (scripted forward) [(1%float, 1%float); (2%float, 2%float)].

Definition no_batches (forward : nat -> result float)
  : @DataLoader (scripted forward) :=
  loader_of (scripted forward) [].

(** The state in which the runs below start; the clock shows the number of
    its readings. *)
Definition start (forward : nat -> result float)
  : @world (scripted forward) :=
  @mkWorld (scripted forward) 0 true 0 0 0 float_of_nat 0 [] [] 0%float None.

(** The state in which the loop over the epochs starts, in a run of [train]
    from [start]: lines 40 to 48 are done. *)
Definition loop_start (forward : nat -> result float) (n_epoch : nat)
  : @world (scripted forward) :=
  final (bind (train_init n_epoch) (fun _ => time_time) (start forward)).

(** * Properties *)

Section Properties.

Context `{F : Framework}.

(** ** The monad *)

Lemma bind_inl {A B} (m : M A) (k : A -> M B) w e :
  res (m w) = inl e ->
  bind m k w = mkOutcome (events (m w)) (final (m w)) (inl e).
Proof.
  unfold bind. destruct (m w) as [evs w' r]. cbn. intros ->. reflexivity.
Qed.

Lemma bind_inr {A B} (m : M A) (k : A -> M B) w a :
  res (m w) = inr a ->
  bind m k w =
  mkOutcome (events (m w) ++ events (k a (final (m w))))
            (final (k a (final (m w)))) (res (k a (final (m w)))).
Proof.
  unfold bind. destruct (m w) as [evs w' r]. cbn. intros ->.
  destruct (k a w'). reflexivity.
Qed.

Lemma bind_ext {A B} (m : M A) (k k' : A -> M B) w :
  (forall a w', k a w' = k' a w') -> bind m k w = bind m k' w.
Proof.
  intros H. unfold bind. destruct (m w) as [evs w' [e|a]]; [reflexivity|].
  rewrite H. reflexivity.
Qed.

Lemma bind_assoc {A B C} (m : M A) (k : A -> M B) (h : B -> M C) w :
  bind (bind m k) h w = bind m (fun a => bind (k a) h) w.
Proof.
  unfold bind. destruct (m w) as [evs w' [e|a]]; [reflexivity|].
  destruct (k a w') as [evs' w'' [e|b]]; [reflexivity|].
  destruct (h b w''). rewrite app_assoc. reflexivity.
Qed.

Lemma bind_ret_l {A B} (a : A) (k : A -> M B) w : bind (ret a) k w = k a w.
Proof. unfold bind, ret. destruct (k a w). reflexivity. Qed.

Lemma bind_ret_r {A} (m : M A) w : bind m ret w = m w.
Proof.
  unfold bind, ret. destruct (m w) as [evs w' [e|a]]; [reflexivity|].
  rewrite app_nil_r. reflexivity.
Qed.

Lemma bind_raise_l {A B} (e : exn) (k : A -> M B) w :
  bind (raise e) k w = raise e w.
Proof. reflexivity. Qed.

Lemma bind_modify {B} (f : world -> world) (k : unit -> M B) w :
  bind (modify f) k w = k tt (f w).
Proof. unfold bind, modify. destruct (k tt (f w)). reflexivity. Qed.

Lemma bind_gets {A B} (f : world -> A) (k : A -> M B) w :
  bind (gets f) k w = k (f w) w.
Proof. unfold bind, gets. destruct (k (f w) w). reflexivity. Qed.

Lemma bind_emit {B} (ev : event) (k : unit -> M B) w :
  bind (emit ev) k w =
  mkOutcome (ev :: events (k tt w)) (final (k tt w)) (res (k tt w)).
Proof. unfold bind, emit. destruct (k tt w). reflexivity. Qed.

Ltac exec :=
  repeat (rewrite ?bind_assoc, ?bind_modify, ?bind_gets, ?bind_ret_l,
            ?bind_raise_l, ?bind_emit;
          cbn [events final res call]).

Lemma bind_returns {A B} (m : M A) (k : A -> M B) w b :
  res (bind m k w) = inr b ->
  exists a, res (m w) = inr a /\ res (k a (final (m w))) = inr b.
Proof.
  destruct (res (m w)) as [e|a] eqn:R.
  - rewrite (bind_inl _ _ _ _ R). discriminate.
  - rewrite (bind_inr _ _ _ _ R). eauto.
Qed.

(** ** Frames compose along the structure of an action *)

Section Keeps.

Context (R : world -> list event -> world -> Prop) (HR : Frame R).

Lemma keeps_ret {A} (a : A) : keeps R (ret a).
Proof. intros w. apply frame_refl. Qed.

Lemma keeps_gets {A} (f : world -> A) : keeps R (gets f).
Proof. intros w. apply frame_refl. Qed.

Lemma keeps_raise {A} (e : exn) : keeps R (@raise _ A e).
Proof. intros w. apply frame_raise. Qed.

Lemma keeps_call {A} (r : result A) : keeps R (call r).
Proof. destruct r; [apply keeps_raise | apply keeps_ret]. Qed.

Lemma keeps_bind {A B} (m : M A) (k : A -> M B) :
  keeps R m -> (forall a, keeps R (k a)) -> keeps R (bind m k).
Proof.
  intros Hm Hk w. specialize (Hm w).
  destruct (res (m w)) as [e|a] eqn:E.
  - rewrite (bind_inl _ _ _ _ E). exact Hm.
  - rewrite (bind_inr _ _ _ _ E). cbn [events final].
    eapply frame_trans; [exact Hm | apply Hk].
Qed.

Lemma keeps_for_each {A} (xs : list A) (body : A -> M unit) :
  (forall x, keeps R (body x)) -> keeps R (for_each xs body).
Proof.
  intros Hb. induction xs as [|x xs IH]; simpl.
  - apply keeps_ret.
  - apply keeps_bind; [apply Hb | intros _; exact IH].
Qed.

Lemma keeps_modify (f : world -> world) :
  (forall w, R w [] (f w)) -> keeps R (modify f).
Proof. intros H w. apply H. Qed.

Lemma keeps_emit (ev : event) :
  (forall w, R w [ev] w) -> keeps R (emit ev).
Proof. intros H w. apply H. Qed.

End Keeps.

(** The actions that are made of others. *)
Ltac unfold_actions :=
  unfold train_pass, val_pass, finalize, checkpoint, record_epoch, pydiv,
    time_time, iterate, model_train, model_eval, optimizer_zero_grad, model,
    loss_backward, optimizer_step_, save_model, save_output_images,
    read_outputs.

(** [keeps R m], down to the [modify] and [emit] of [m], which [leaf]
    proves. *)
Create HintDb keeps_db.

Ltac keeps_struct HR leaf :=
  repeat first
    [ solve [auto 1 with keeps_db nocore]
    | apply (keeps_ret _ HR) | apply (keeps_gets _ HR)
    | apply (keeps_raise _ HR) | apply (keeps_call _ HR)
    | apply (keeps_bind _ HR); [|intros ?]
    | apply (keeps_for_each _ HR); intros ?
    | apply keeps_modify; intros ?; leaf
    | apply keeps_emit; intros ?; leaf
    | match goal with
      | |- keeps _ (if ?b then _ else _) => destruct b eqn:?
      | |- keeps _ (match ?x with Some _ => _ | None => _ end) => destruct x
      end
    | progress unfold_actions ].

Lemma unstepped_frame : Frame unstepped.
Proof.
  split; unfold unstepped.
  - intros w. simpl. intuition.
  - intros w1 e1 w2 e2 w3 (P1 & O1 & B1 & S1) (P2 & O2 & B2 & S2).
    repeat split; try congruence; rewrite in_app_iff; tauto.
  - intros w e. simpl. intuition discriminate.
Qed.

Lemma stepped_only_frame : Frame stepped_only.
Proof.
  split; unfold stepped_only.
  - intros w. left. reflexivity.
  - intros w1 e1 w2 e2 w3 [P1|S1] [P2|S2]; rewrite in_app_iff;
      first [left; congruence | right; tauto].
  - intros w e. left. reflexivity.
Qed.

Lemma locals_kept_frame (allowed : event -> Prop) :
  (forall e, allowed (EvRaise e)) -> Frame (locals_kept allowed).
Proof.
  intros Hraise. split; unfold locals_kept.
  - intros w. repeat split. constructor.
  - intros w1 e1 w2 e2 w3 (T1 & V1 & B1 & A1) (T2 & V2 & B2 & A2).
    repeat split; try congruence. apply Forall_app; split; assumption.
  - intros w e. repeat split. constructor; [apply Hraise | constructor].
Qed.

(** ** The validation pass leaves the model alone *)

Lemma val_loop_unstepped criterion epoch bs a b c :
  keeps unstepped (val_loop criterion epoch bs a b c).
Proof.
  revert a b c.
  induction bs as [|[inputs targets] rest IH]; intros a b c; simpl.
  - apply (keeps_ret _ unstepped_frame).
  - keeps_struct unstepped_frame
      ltac:(unfold unstepped; simpl; intuition discriminate).
Qed.

Lemma val_pass_unstepped criterion dl epoch :
  keeps unstepped (val_pass criterion dl epoch).
Proof.
  pose proof (val_loop_unstepped criterion epoch) as Hloop.
  unfold val_pass.
  keeps_struct unstepped_frame
    ltac:(unfold unstepped; simpl; intuition discriminate).
Qed.

Lemma optimizer_step_stepped_only : keeps stepped_only optimizer_step_.
Proof.
  intros w. right. unfold optimizer_step_.
  rewrite (bind_inr (emit EvStep) _ w tt) by reflexivity.
  left. reflexivity.
Qed.

#[local] Hint Resolve optimizer_step_stepped_only : keeps_db.

Lemma train_loop_stepped_only criterion bs a b c :
  keeps stepped_only (train_loop criterion bs a b c).
Proof.
  revert a b c.
  induction bs as [|[inputs targets] rest IH]; intros a b c; simpl.
  - apply (keeps_ret _ stepped_only_frame).
  - keeps_struct stepped_only_frame
      ltac:(unfold stepped_only; simpl; tauto).
Qed.

Lemma unstepped_stepped_only {A} (m : M A) :
  keeps unstepped m -> keeps stepped_only m.
Proof. intros H w. left. apply (H w). Qed.

Lemma train_stepped_only criterion n_epoch train_dl val_dl :
  keeps stepped_only (train criterion n_epoch train_dl val_dl).
Proof.
  pose proof (train_loop_stepped_only criterion) as Hloop.
  pose proof (fun e => unstepped_stepped_only _
                         (val_pass_unstepped criterion val_dl e)) as Hval.
  unfold train, train_init, run_epoch, train_pass.
  keeps_struct stepped_only_frame
    ltac:(unfold stepped_only; simpl; tauto).
Qed.

(** C6. The validation pass of an epoch, from whatever state the training
    pass left, ends with the same weights and the same optimizer state, and
    calls neither [loss.backward()] nor [optimizer.step()]; and over a whole
    run of [train] the weights are the initial ones unless
    [optimizer.step()], which only the training pass calls, was called. *)
Theorem validation_leaves_weights
    (criterion : tensor -> tensor -> result float) (n_epoch : nat)
    (train_dl val_dl : DataLoader) (epoch : nat) (w : world) :
  let v := val_pass criterion val_dl epoch w in
  let t := train criterion n_epoch train_dl val_dl w in
  (model_params (final v) = model_params w /\
   optimizer_state (final v) = optimizer_state w /\
   ~ In EvBackward (events v) /\ ~ In EvStep (events v)) /\
  (model_params (final t) = model_params w \/ In EvStep (events t)).
Proof.
  split.
  - apply (val_pass_unstepped criterion val_dl epoch w).
  - apply (train_stepped_only criterion n_epoch train_dl val_dl w).
Qed.

(** ** What the passes and the checkpoint leave alone *)

Ltac locals_leaf :=
  unfold locals_kept; simpl; repeat split;
  repeat constructor; simpl; auto;
  try (apply Nat.eqb_eq; assumption).

Lemma training_event_raise e : training_event (EvRaise e).
Proof. exact I. Qed.

Lemma validation_event_raise epoch e : validation_event epoch (EvRaise e).
Proof. exact I. Qed.

Lemma checkpoint_event_raise epoch vs e : checkpoint_event epoch vs (EvRaise e).
Proof. exact I. Qed.

Lemma train_loop_locals criterion bs a b c :
  keeps (locals_kept training_event) (train_loop criterion bs a b c).
Proof.
  pose proof (locals_kept_frame _ training_event_raise) as HR.
  revert a b c.
  induction bs as [|[inputs targets] rest IH]; intros a b c; simpl.
  - apply (keeps_ret _ HR).
  - keeps_struct HR locals_leaf.
Qed.

Lemma train_pass_locals criterion dl :
  keeps (locals_kept training_event) (train_pass criterion dl).
Proof.
  pose proof (locals_kept_frame _ training_event_raise) as HR.
  pose proof (train_loop_locals criterion) as Hloop.
  unfold train_pass.
  keeps_struct HR locals_leaf.
Qed.

Lemma val_loop_locals criterion epoch bs a b c :
  keeps (locals_kept (validation_event epoch))
        (val_loop criterion epoch bs a b c).
Proof.
  pose proof (locals_kept_frame _ (validation_event_raise epoch)) as HR.
  revert a b c.
  induction bs as [|[inputs targets] rest IH]; intros a b c; simpl.
  - apply (keeps_ret _ HR).
  - keeps_struct HR locals_leaf.
Qed.

Lemma val_pass_locals criterion dl epoch :
  keeps (locals_kept (validation_event epoch)) (val_pass criterion dl epoch).
Proof.
  pose proof (locals_kept_frame _ (validation_event_raise epoch)) as HR.
  pose proof (val_loop_locals criterion epoch) as Hloop.
  unfold val_pass.
  keeps_struct HR locals_leaf.
Qed.

Lemma checkpoint_locals vs epoch :
  keeps (locals_kept (checkpoint_event epoch vs)) (checkpoint vs epoch).
Proof.
  pose proof (locals_kept_frame _ (checkpoint_event_raise epoch vs)) as HR.
  unfold checkpoint.
  keeps_struct HR locals_leaf.
Qed.

(** What the events of each kind show to the observers. *)
Lemma training_events_silent evs :
  Forall training_event evs ->
  checkpoints evs = [] /\ summaries evs = [] /\
  forall best, images best evs = [].
Proof.
  induction 1 as [|ev evs Hev _ (IH1 & IH2 & IH3)]; [repeat split|].
  destruct ev; simpl in Hev; try contradiction; simpl; auto.
Qed.

Lemma validation_events_silent epoch evs :
  Forall (validation_event epoch) evs ->
  checkpoints evs = [] /\ summaries evs = [] /\ images true evs = [] /\
  Forall (fun i => snd i = epoch) (images false evs) /\
  ((epoch + 1) mod 20 <> 0 -> images false evs = []).
Proof.
  induction 1 as [|ev evs Hev _ (IH1 & IH2 & IH3 & IH4 & IH5)];
    [repeat split; constructor|].
  destruct ev; simpl in Hev; try contradiction; simpl; auto.
  destruct Hev as (-> & -> & Hq). simpl.
  repeat split; auto. intros Hn. contradiction.
Qed.

Lemma checkpoint_events_silent epoch vs evs :
  Forall (checkpoint_event epoch vs) evs ->
  summaries evs = [] /\ images false evs = [] /\
  Forall (fun c => c = (epoch, psnr vs)) (checkpoints evs) /\
  Forall (fun i => snd i = epoch) (images true evs).
Proof.
  induction 1 as [|ev evs Hev _ (IH1 & IH2 & IH3 & IH4)];
    [repeat split; constructor|].
  destruct ev; simpl in Hev; try contradiction; simpl; auto.
  - destruct Hev as (-> & _ & -> & _). repeat split; auto.
  - destruct Hev as (-> & ->). simpl. repeat split; auto.
Qed.

(** ** The checkpoint, and one epoch *)

Lemma checkpoint_outcome vs epoch w :
  let cp := checkpoint vs epoch w in
  ((best_psnr w <? psnr vs)%float = false -> cp = mkOutcome [] w (inr tt)) /\
  ((best_psnr w <? psnr vs)%float = true ->
   (exists evs, events cp = EvSaveModel (model_params w) (optimizer_state w)
                              (loss vs) (psnr vs) (ssim vs) epoch :: evs) /\
   (res cp = inr tt ->
    checkpoints (events cp) = [(epoch, psnr vs)] /\
    exists outs, images true (events cp) = [(outs, epoch)])).
Proof.
  unfold checkpoint, save_model, read_outputs, save_output_images, bind.
  simpl. split; intros Hb; rewrite Hb.
  - reflexivity.
  - destruct (save_model_error _ _ _ _ _ _); simpl.
    + split; [eexists; reflexivity | discriminate].
    + destruct (outputs w) as [outs|]; simpl;
        [|split; [eexists; reflexivity | discriminate]].
      destruct (save_output_images_error _ _ _); simpl;
        (split; [eexists; reflexivity | try discriminate]).
      intros _. split; [reflexivity | exists outs; reflexivity].
Qed.

(** *** The histories and the summary of an epoch *)

Lemma setitem_inside (history : list float) i x :
  i < length history -> setitem history i x = inr (<[i := x]> history).
Proof.
  intros Hi. unfold setitem.
  destruct (Nat.ltb_spec i (length history)); [reflexivity | lia].
Qed.

Lemma setitem_outside (history : list float) i x :
  length history <= i -> setitem history i x = inl IndexError.
Proof.
  intros Hi. unfold setitem.
  destruct (Nat.ltb_spec i (length history)); [lia | reflexivity].
Qed.

Lemma record_epoch_inside n_epoch epoch ts vs w :
  epoch < length (train_losses w) -> epoch < length (val_losses w) ->
  record_epoch n_epoch epoch ts vs w = recorded n_epoch epoch ts vs w.
Proof.
  intros Ht Hv. unfold record_epoch. exec.
  rewrite (setitem_inside _ _ _ Ht). exec.
  cbn [val_losses set_train_losses].
  rewrite (setitem_inside _ _ _ Hv). exec. reflexivity.
Qed.

(** Lines 108 to 117 either record the epoch, or raise [IndexError] and
    print nothing; with histories of one length they change nothing when
    they raise. *)
Lemma record_epoch_outcome n_epoch epoch ts vs w :
  let r := record_epoch n_epoch epoch ts vs w in
  (epoch < length (train_losses w) /\ epoch < length (val_losses w) /\
   r = recorded n_epoch epoch ts vs w)
  \/
  ((length (train_losses w) <= epoch \/ length (val_losses w) <= epoch) /\
   res r = inl IndexError /\ events r = [EvRaise IndexError] /\
   best_psnr (final r) = best_psnr w /\
   length (train_losses (final r)) = length (train_losses w) /\
   length (val_losses (final r)) = length (val_losses w) /\
   (length (train_losses w) = length (val_losses w) -> final r = w)).
Proof.
  cbv zeta.
  destruct (Nat.lt_ge_cases epoch (length (train_losses w))) as [Ht|Ht].
  - destruct (Nat.lt_ge_cases epoch (length (val_losses w))) as [Hv|Hv].
    + left. split; [exact Ht|]. split; [exact Hv|].
      apply record_epoch_inside; assumption.
    + right. split; [right; exact Hv|].
      unfold record_epoch. exec.
      rewrite (setitem_inside _ _ _ Ht). exec.
      cbn [val_losses set_train_losses].
      rewrite (setitem_outside _ _ _ Hv). exec.
      cbn [raise events final res best_psnr train_losses val_losses
           set_train_losses].
      rewrite length_insert.
      repeat (split; [reflexivity|]). intros Heq. lia.
  - right. split; [left; exact Ht|].
    unfold record_epoch. exec.
    rewrite (setitem_outside _ _ _ Ht). exec.
    cbn [raise events final res].
    repeat (split; [reflexivity|]). intros _. reflexivity.
Qed.

Lemma record_epoch_returns n_epoch epoch ts vs w u :
  res (record_epoch n_epoch epoch ts vs w) = inr u ->
  epoch < length (train_losses w) /\ epoch < length (val_losses w) /\
  record_epoch n_epoch epoch ts vs w = recorded n_epoch epoch ts vs w.
Proof.
  intros H.
  destruct (record_epoch_outcome n_epoch epoch ts vs w)
    as [Hin | (_ & Hres & _)]; [exact Hin|].
  rewrite Hres in H. discriminate.
Qed.

(** The events of one epoch, in four parts: the training pass, the
    validation pass, the checkpoint, the summary. Either the epoch ends with
    its summary, or an exception ended it before and nothing was recorded. *)
Lemma run_epoch_events criterion n_epoch train_dl val_dl epoch w :
  let r := run_epoch criterion n_epoch train_dl val_dl epoch w in
  best_psnr (final r) = best_psnr w /\
  length (train_losses (final r)) = length (train_losses w) /\
  length (val_losses (final r)) = length (val_losses w) /\
  exists evt evv evc evp vs,
    events r = evt ++ evv ++ evc ++ evp /\
    Forall training_event evt /\
    Forall (validation_event epoch) evv /\
    Forall (checkpoint_event epoch vs) evc /\
    (evc = [] \/ exists p, In (epoch, p) (checkpoints evc)) /\
    ((exists ex, res r = inl ex /\ unrecorded evp /\
                 (length (train_losses w) = length (val_losses w) ->
                  histories (final r) = histories w))
     \/
     (exists ts, res r = inr tt /\
                 evp = [EvPrintEpoch (epoch + 1) n_epoch ts vs] /\
                 epoch < length (train_losses w) /\
                 epoch < length (val_losses w) /\
                 train_losses (final r)
                 = <[epoch := loss ts]> (train_losses w) /\
                 val_losses (final r)
                 = <[epoch := loss vs]> (val_losses w) /\
                 if (best_psnr w <? psnr vs)%float
                 then checkpoints evc = [(epoch, psnr vs)] /\
                      exists outs, images true evc = [(outs, epoch)]
                 else evc = [])).
Proof.
  intros r. subst r. unfold run_epoch.
  pose proof (train_pass_locals criterion train_dl w) as (T1 & V1 & B1 & E1).
  set (tp := train_pass criterion train_dl w) in *.
  destruct (res tp) as [ex|ts] eqn:Rt.
  { rewrite (bind_inl _ _ _ _ Rt). fold tp. cbn [events final res].
    split; [exact B1|]. split; [congruence|]. split; [congruence|].
    exists (events tp), [], [], [], (mkStats 0 0 0).
    split; [cbn [app]; rewrite app_nil_r; reflexivity|].
    do 3 (split; [first [assumption | constructor]|]).
    split; [left; reflexivity|].
    left. exists ex. split; [reflexivity|]. split; [left; reflexivity|].
    intros _. unfold histories. rewrite T1, V1. reflexivity. }
  rewrite (bind_inr _ _ _ _ Rt). fold tp. cbn [events final res].
  pose proof (val_pass_locals criterion val_dl epoch (final tp))
    as (T2 & V2 & B2 & E2).
  set (vp := val_pass criterion val_dl epoch (final tp)) in *.
  destruct (res vp) as [ex|vs] eqn:Rv.
  { rewrite (bind_inl _ _ _ _ Rv). fold vp. cbn [events final res].
    split; [congruence|]. split; [congruence|]. split; [congruence|].
    exists (events tp), (events vp), [], [], (mkStats 0 0 0).
    split; [cbn [app]; rewrite app_nil_r; reflexivity|].
    do 3 (split; [first [assumption | constructor]|]).
    split; [left; reflexivity|].
    left. exists ex. split; [reflexivity|]. split; [left; reflexivity|].
    intros _. unfold histories. rewrite T2, V2, T1, V1. reflexivity. }
  rewrite (bind_inr _ _ _ _ Rv). fold vp. cbn [events final res].
  pose proof (checkpoint_locals vs epoch (final vp)) as (T3 & V3 & B3 & E3).
  pose proof (checkpoint_outcome vs epoch (final vp)) as (Hno & Hyes).
  set (cp := checkpoint vs epoch (final vp)) in *.
  assert (Hevc : events cp = [] \/
                 exists p, In (epoch, p) (checkpoints (events cp))).
  { destruct (best_psnr (final vp) <? psnr vs)%float.
    - right. destruct Hyes as ([evs ->] & _); [reflexivity|].
      exists (psnr vs). left. reflexivity.
    - left. rewrite Hno; reflexivity. }
  destruct (res cp) as [ex|[]] eqn:Rc.
  { rewrite (bind_inl _ _ _ _ Rc). fold cp. cbn [events final res].
    split; [congruence|]. split; [congruence|]. split; [congruence|].
    exists (events tp), (events vp), (events cp), [], vs.
    split; [cbn [app]; rewrite app_nil_r; reflexivity|].
    do 3 (split; [first [assumption | constructor]|]).
    split; [exact Hevc|].
    left. exists ex. split; [reflexivity|]. split; [left; reflexivity|].
    intros _. unfold histories. rewrite T3, V3, T2, V2, T1, V1.
    reflexivity. }
  rewrite (bind_inr _ _ _ _ Rc). fold cp. cbn [events final res].
  assert (HT : train_losses (final cp) = train_losses w) by congruence.
  assert (HV : val_losses (final cp) = val_losses w) by congruence.
  assert (HB : best_psnr (final cp) = best_psnr w) by congruence.
  destruct (record_epoch_outcome n_epoch epoch ts vs (final cp))
    as [(Hit & Hiv & ->)
       | (_ & Hres & Hevs & Hbest & Hlt & Hlv & Hsame)].
  - unfold recorded. cbn [events final res].
    cbn [best_psnr train_losses val_losses set_train_losses set_val_losses].
    rewrite !length_insert, HT, HV in *.
    split; [exact HB|]. split; [reflexivity|]. split; [reflexivity|].
    exists (events tp), (events vp), (events cp),
      [EvPrintEpoch (epoch + 1) n_epoch ts vs], vs.
    split; [reflexivity|].
    do 3 (split; [assumption|]).
    split; [exact Hevc|].
    right. exists ts.
    do 6 (split; [first [reflexivity | assumption]|]).
    assert (Hbest : best_psnr (final vp) = best_psnr w) by congruence.
    rewrite Hbest in Hno, Hyes.
    destruct (best_psnr w <? psnr vs)%float.
    + apply Hyes; reflexivity.
    + rewrite Hno; reflexivity.
  - rewrite Hres, Hevs. rewrite HT in Hlt. rewrite HV in Hlv.
    split; [congruence|]. split; [exact Hlt|]. split; [exact Hlv|].
    exists (events tp), (events vp), (events cp), [EvRaise IndexError], vs.
    split; [reflexivity|].
    do 3 (split; [assumption|]).
    split; [exact Hevc|].
    left. exists IndexError. split; [reflexivity|].
    split; [right; reflexivity|].
    intros Heq. rewrite Hsame by congruence.
    unfold histories. rewrite HT, HV. reflexivity.
Qed.

Lemma unrecorded_silent (evp : list event) :
  unrecorded evp ->
  checkpoints evp = [] /\ summaries evp = [] /\
  forall best, images best evp = [].
Proof. intros [-> | ->]; repeat split. Qed.

Lemma checkpoints_app (e1 e2 : list event) :
  checkpoints (e1 ++ e2) = checkpoints e1 ++ checkpoints e2.
Proof. apply flat_map_app. Qed.

Lemma images_app best (e1 e2 : list event) :
  images best (e1 ++ e2) = images best e1 ++ images best e2.
Proof. apply flat_map_app. Qed.

Lemma summaries_app (e1 e2 : list event) :
  summaries (e1 ++ e2) = summaries e1 ++ summaries e2.
Proof. apply flat_map_app. Qed.

Lemma raised_app (e1 e2 : list event) :
  raised (e1 ++ e2) = raised e1 ++ raised e2.
Proof. apply flat_map_app. Qed.

(** What one epoch shows. *)
Lemma run_epoch_observed criterion n_epoch train_dl val_dl epoch w :
  let r := run_epoch criterion n_epoch train_dl val_dl epoch w in
  best_psnr (final r) = best_psnr w /\
  Forall (fun c => fst c = epoch) (checkpoints (events r)) /\
  Forall (fun i => snd i = epoch) (images true (events r)) /\
  Forall (fun i => snd i = epoch /\ (epoch + 1) mod 20 = 0)
         (images false (events r)) /\
  (images true (events r) = [] \/
   exists p, In (epoch, p) (checkpoints (events r))) /\
  match res r with
  | inl _ => summaries (events r) = [] /\
             (length (train_losses w) = length (val_losses w) ->
              histories (final r) = histories w)
  | inr _ =>
      exists ts vs,
        summaries (events r) = [(epoch + 1, vs)] /\
        train_losses (final r) = <[epoch := loss ts]> (train_losses w) /\
        val_losses (final r) = <[epoch := loss vs]> (val_losses w) /\
        if (best_psnr w <? psnr vs)%float
        then In (epoch, psnr vs) (checkpoints (events r)) /\
             exists outs, In (outs, epoch) (images true (events r))
        else checkpoints (events r) = [] /\ images true (events r) = []
  end.
Proof.
  intros r.
  destruct (run_epoch_events criterion n_epoch train_dl val_dl epoch w)
    as (Hb & _ & _ & evt & evv & evc & evp & vs & Hev & Ht & Hv & Hc & Hevc
        & Hend).
  fold r in Hb, Hev, Hend.
  destruct (training_events_silent _ Ht) as (Ct & St & It).
  destruct (validation_events_silent _ _ Hv) as (Cv & Sv & Iv & Fv & Qv).
  destruct (checkpoint_events_silent _ _ _ Hc) as (Sc & Ic & Fc & Gc).
  assert (Hp : checkpoints evp = [] /\ (forall b, images b evp = [])).
  { destruct Hend as [(ex & _ & Hun & _) | (ts & _ & -> & _)].
    - destruct (unrecorded_silent _ Hun) as (Hc' & _ & Hi'). auto.
    - split; intros; reflexivity. }
  destruct Hp as (Cp & Ip).
  assert (HC : checkpoints (events r) = checkpoints evc).
  { rewrite Hev, !checkpoints_app, Ct, Cv, Cp. cbn [app].
    rewrite ?app_nil_r. reflexivity. }
  assert (HI : images true (events r) = images true evc).
  { rewrite Hev, !images_app, It, Iv, Ip. cbn [app].
    rewrite ?app_nil_r. reflexivity. }
  assert (HF : images false (events r) = images false evv).
  { rewrite Hev, !images_app, It, Ic, Ip. cbn [app].
    rewrite ?app_nil_r. reflexivity. }
  assert (HS : summaries (events r) = summaries evp).
  { rewrite Hev, !summaries_app, St, Sv, Sc. cbn [app]. reflexivity. }
  rewrite HC, HI, HF, HS.
  split; [exact Hb|].
  split; [eapply Forall_impl; [exact Fc|]; intros c ->; reflexivity|].
  split; [exact Gc|].
  split.
  { destruct (Nat.eq_dec ((epoch + 1) mod 20) 0) as [Hq|Hq].
    - eapply Forall_impl; [exact Fv|]. intros i Hi. split; assumption.
    - rewrite (Qv Hq). constructor. }
  split.
  { destruct Hevc as [-> | Hin]; [left; reflexivity | right; exact Hin]. }
  destruct Hend as [(ex & -> & Hun & Hh)
                   | (ts & -> & -> & _ & _ & Htl & Hvl & Hck)].
  - split; [apply (unrecorded_silent _ Hun) | exact Hh].
  - exists ts, vs. split; [reflexivity|]. split; [exact Htl|].
    split; [exact Hvl|].
    destruct (best_psnr w <? psnr vs)%float.
    + destruct Hck as (-> & outs & ->). split; [left; reflexivity|].
      exists outs. left. reflexivity.
    + rewrite Hck. split; reflexivity.
Qed.

(** ** The loop over the epochs *)

(** An epoch leaves the lengths of the histories as they are. *)
Lemma run_epoch_lengths criterion n_epoch train_dl val_dl epoch w :
  let r := run_epoch criterion n_epoch train_dl val_dl epoch w in
  length (train_losses (final r)) = length (train_losses w) /\
  length (val_losses (final r)) = length (val_losses w).
Proof.
  intros r.
  destruct (run_epoch_events criterion n_epoch train_dl val_dl epoch w)
    as (_ & Ht & Hv & _).
  split; assumption.
Qed.

Lemma epochs_lengths criterion n_epoch train_dl val_dl n :
  forall a w,
    let o := for_each (seq a n)
                      (run_epoch criterion n_epoch train_dl val_dl) w in
    length (train_losses (final o)) = length (train_losses w) /\
    length (val_losses (final o)) = length (val_losses w).
Proof.
  induction n as [|n IH]; intros a w; cbn [seq for_each].
  - cbn. auto.
  - destruct (run_epoch_lengths criterion n_epoch train_dl val_dl a w)
      as (Ht & Hv).
    set (body := run_epoch criterion n_epoch train_dl val_dl) in *.
    destruct (res (body a w)) as [ex|[]] eqn:R.
    + rewrite (bind_inl _ _ _ _ R). cbn [final]. auto.
    + rewrite (bind_inr _ _ _ _ R). cbn [final].
      destruct (IH (S a) (final (body a w))) as (Ht' & Hv').
      split; congruence.
Qed.

(** The epochs that ended are those with a summary; an epoch that an
    exception ended, and the epochs after it, leave the histories (of one
    length) as they were. *)
Lemma epochs_recorded criterion n_epoch train_dl val_dl n :
  forall a w,
    let o := for_each (seq a n)
                      (run_epoch criterion n_epoch train_dl val_dl) w in
    let k := length (summaries (events o)) in
    best_psnr (final o) = best_psnr w /\
    match res o with
    | inl _ => k < n
    | inr _ => k = n
    end /\
    (length (train_losses w) = length (val_losses w) ->
     forall j, j < a \/ a + k <= j ->
       train_losses (final o) !! j = train_losses w !! j /\
       val_losses (final o) !! j = val_losses w !! j).
Proof.
  induction n as [|n IH]; intros a w; cbn [seq for_each].
  - cbn. auto.
  - destruct (run_epoch_observed criterion n_epoch train_dl val_dl a w)
      as (Hb & _ & _ & _ & _ & Hres).
    destruct (run_epoch_lengths criterion n_epoch train_dl val_dl a w)
      as (Lt & Lv).
    set (body := run_epoch criterion n_epoch train_dl val_dl) in *.
    destruct (res (body a w)) as [ex|[]] eqn:R.
    + rewrite (bind_inl _ _ _ _ R). cbn [events final res].
      destruct Hres as (Hs & Hh). rewrite Hs. cbn [length].
      split; [exact Hb|]. split; [lia|].
      intros Heq j _. specialize (Hh Heq). unfold histories in Hh.
      injection Hh as -> ->. auto.
    + rewrite (bind_inr _ _ _ _ R). cbn [events final res].
      destruct Hres as (ts & vs & Hs & Ht & Hv & _).
      destruct (IH (S a) (final (body a w))) as (Hb' & Hk & Hj).
      rewrite summaries_app, length_app, Hs. cbn [length].
      split; [congruence|].
      split.
      * destruct (res (for_each (seq (S a) n) body (final (body a w))));
          lia.
      * intros Heq j Hrange.
        destruct (Hj ltac:(congruence) j) as (Hjt & Hjv); [lia|].
        rewrite Hjt, Hjv, Ht, Hv.
        rewrite !list_lookup_insert_ne by lia. auto.
Qed.

Lemma Forall_In_map {A B} (f : A -> B) (P : B -> Prop) (l : list A) y :
  Forall (fun x => P (f x)) l -> In y (map f l) -> P y.
Proof.
  intros HF Hin. apply in_map_iff in Hin as (x & <- & Hx).
  exact (proj1 (List.Forall_forall _ l) HF x Hx).
Qed.

(** Each summary of the loop is that of one epoch, and the checkpoint of
    that epoch was written, with its best-flagged images, exactly when its
    validation PSNR is above the [best_psnr] the loop started with. *)
Lemma epochs_checkpoints criterion n_epoch train_dl val_dl n :
  forall a w,
    let o := for_each (seq a n)
                      (run_epoch criterion n_epoch train_dl val_dl) w in
    Forall (fun c => a <= fst c < a + n) (checkpoints (events o)) /\
    Forall (fun i => a <= snd i < a + n) (images true (events o)) /\
    Forall (fun i => (snd i + 1) mod 20 = 0) (images false (events o)) /\
    (forall i, In i (images true (events o)) ->
               exists p, In (snd i, p) (checkpoints (events o))) /\
    forall s vs, In (s, vs) (summaries (events o)) ->
      exists e, s = e + 1 /\ a <= e < a + n /\
        if (best_psnr w <? psnr vs)%float
        then In (e, psnr vs) (checkpoints (events o)) /\
             exists outs, In (outs, e) (images true (events o))
        else ~ In e (map fst (checkpoints (events o))) /\
             ~ In e (map snd (images true (events o))).
Proof.
  induction n as [|n IH]; intros a w; cbn [seq for_each].
  - cbn. repeat split; try constructor; intros; contradiction.
  - destruct (run_epoch_observed criterion n_epoch train_dl val_dl a w)
      as (Hb & Fc & Fi & Ff & Hic & Hres).
    set (body := run_epoch criterion n_epoch train_dl val_dl) in *.
    assert (Hic' : forall i, In i (images true (events (body a w))) ->
                     exists p, In (snd i, p) (checkpoints (events (body a w)))).
    { intros i Hi. destruct Hic as [Hnil | Hp].
      - rewrite Hnil in Hi. destruct Hi.
      - rewrite (proj1 (List.Forall_forall _ _) Fi i Hi). exact Hp. }
    assert (Ff' : Forall (fun i => (snd i + 1) mod 20 = 0)
                         (images false (events (body a w)))).
    { eapply Forall_impl; [exact Ff|]. intros i (-> & Hq). exact Hq. }
    destruct (res (body a w)) as [ex|[]] eqn:R.
    + rewrite (bind_inl _ _ _ _ R). cbn [events].
      destruct Hres as (Hs & _).
      split; [eapply Forall_impl; [exact Fc|]; cbn beta; intros; lia|].
      split; [eapply Forall_impl; [exact Fi|]; cbn beta; intros; lia|].
      split; [exact Ff'|]. split; [exact Hic'|].
      rewrite Hs. intros s vs [].
    + rewrite (bind_inr _ _ _ _ R). cbn [events].
      destruct Hres as (ts & vs & Hs & _ & _ & Hck).
      destruct (IH (S a) (final (body a w)))
        as (Fc2 & Fi2 & Ff2 & Hic2 & Hsum2).
      rewrite Hb in Hsum2.
      set (e1 := events (body a w)) in *.
      set (e2 := events (for_each (seq (S a) n) body (final (body a w)))) in *.
      rewrite checkpoints_app, !images_app, summaries_app.
      split.
      { apply Forall_app. split.
        - eapply Forall_impl; [exact Fc|]; cbn beta; intros; lia.
        - eapply Forall_impl; [exact Fc2|]; cbn beta; intros; lia. }
      split.
      { apply Forall_app. split.
        - eapply Forall_impl; [exact Fi|]; cbn beta; intros; lia.
        - eapply Forall_impl; [exact Fi2|]; cbn beta; intros; lia. }
      split; [apply Forall_app; split; assumption|].
      split.
      { intros i Hi. apply in_app_iff in Hi as [Hi|Hi].
        - destruct (Hic' i Hi) as (p & Hp). exists p.
          apply in_app_iff. left. exact Hp.
        - destruct (Hic2 i Hi) as (p & Hp). exists p.
          apply in_app_iff. right. exact Hp. }
      intros s vs' Hin. rewrite Hs in Hin. cbn [app In] in Hin.
      destruct Hin as [Heq | Hin].
      * injection Heq as <- <-. exists a.
        split; [reflexivity|]. split; [lia|].
        destruct (best_psnr w <? psnr vs)%float.
        -- destruct Hck as (Hc & outs & Ho). split.
           ++ apply in_app_iff. left. exact Hc.
           ++ exists outs. apply in_app_iff. left. exact Ho.
        -- destruct Hck as (-> & ->). cbn [app]. split; intros Hin.
           ++ pose proof (Forall_In_map fst (fun x => S a <= x < S a + n)
                            _ a Fc2 Hin) as Hlt. cbn beta in Hlt. lia.
           ++ pose proof (Forall_In_map snd (fun x => S a <= x < S a + n)
                            _ a Fi2 Hin) as Hlt. cbn beta in Hlt. lia.
      * destruct (Hsum2 s vs' Hin) as (e & -> & He & Hif).
        exists e. split; [reflexivity|]. split; [lia|].
        destruct (best_psnr w <? psnr vs')%float.
        -- destruct Hif as (Hc & outs & Ho). split.
           ++ apply in_app_iff. right. exact Hc.
           ++ exists outs. apply in_app_iff. right. exact Ho.
        -- destruct Hif as (Hnc & Hni).
           rewrite !map_app, !in_app_iff. split; intros [Hin1|Hin2]; auto.
           ++ pose proof (Forall_In_map fst (fun x => x = a) _ e Fc Hin1)
                as Heq. cbn beta in Heq. lia.
           ++ pose proof (Forall_In_map snd (fun x => x = a) _ e Fi Hin1)
                as Heq. cbn beta in Heq. lia.
Qed.

(** ** [train] around its loop *)

(** The state in which the loop of [train] starts. *)
Lemma train_unfold criterion n_epoch train_dl val_dl w :
  let w0 := set_ticks (S (ticks w))
              (set_best_psnr 0%float
                 (set_val_losses (replicate n_epoch 0%float)
                    (set_train_losses (replicate n_epoch 0%float) w))) in
  let o := for_each (seq 0 n_epoch)
                    (run_epoch criterion n_epoch train_dl val_dl) w0 in
  train criterion n_epoch train_dl val_dl w =
  match res o with
  | inl e => mkOutcome (events o) (final o) (inl e)
  | inr _ =>
      mkOutcome
        (events o ++
         [EvPrintCompleted (clock (final o) (ticks (final o))
                            - clock w (ticks w))%float])
        (set_ticks (S (ticks (final o))) (final o)) (inr tt)
  end.
Proof.
  intros w0 o. subst o.
  unfold train.
  rewrite (bind_inr (train_init n_epoch) _ w tt) by reflexivity.
  rewrite (bind_inr time_time _ _ (clock w (ticks w))) by reflexivity.
  change (final (time_time (final (train_init n_epoch w)))) with w0.
  cbn [events app].
  set (loop := for_each _ _).
  destruct (res (loop w0)) as [e|[]] eqn:R.
  - rewrite (bind_inl _ _ _ _ R). reflexivity.
  - rewrite (bind_inr _ _ _ _ R).
    rewrite (bind_inr time_time _ _
               (clock (final (loop w0)) (ticks (final (loop w0)))))
      by reflexivity.
    cbn [events final res app time_time emit]. reflexivity.
Qed.

(** ** Exceptions *)

Lemma in_raised e (evs : list event) :
  In (EvRaise e) evs <-> In e (raised evs).
Proof.
  induction evs as [|ev evs IH]; [reflexivity|].
  destruct ev; cbn [raised flat_map app In] in *;
    try (rewrite <- IH; intuition discriminate).
  fold (raised evs). rewrite <- IH. intuition congruence.
Qed.

Section Propagates.

Lemma propagates_ret {A} (a : A) : propagates (ret a).
Proof. intros w. reflexivity. Qed.

Lemma propagates_gets {A} (f : world -> A) : propagates (gets f).
Proof. intros w. reflexivity. Qed.

Lemma propagates_modify (f : world -> world) : propagates (modify f).
Proof. intros w. reflexivity. Qed.

Lemma propagates_emit (ev : event) :
  raised [ev] = [] -> propagates (emit ev).
Proof. intros H w. exact H. Qed.

Lemma propagates_raise {A} (e : exn) : propagates (@raise _ A e).
Proof. intros w. split; [reflexivity | exists []; reflexivity]. Qed.

Lemma propagates_call {A} (r : result A) : propagates (call r).
Proof. destruct r; [apply propagates_raise | apply propagates_ret]. Qed.

Lemma propagates_bind {A B} (m : M A) (k : A -> M B) :
  propagates m -> (forall a, propagates (k a)) -> propagates (bind m k).
Proof.
  intros Hm Hk w. specialize (Hm w). unfold exits_cleanly in *.
  destruct (res (m w)) as [e|a] eqn:R.
  - rewrite (bind_inl _ _ _ _ R). exact Hm.
  - rewrite (bind_inr _ _ _ _ R). cbn [events res].
    specialize (Hk a (final (m w))). unfold exits_cleanly in Hk.
    rewrite raised_app, Hm. cbn [app].
    destruct (res (k a (final (m w)))) as [e|b]; [|exact Hk].
    destruct Hk as (Hr & pre & Hpre). split; [exact Hr|].
    exists (events (m w) ++ pre). rewrite Hpre. apply app_assoc.
Qed.

Lemma propagates_for_each {A} (xs : list A) (body : A -> M unit) :
  (forall x, propagates (body x)) -> propagates (for_each xs body).
Proof.
  intros Hb. induction xs as [|x xs IH]; cbn [for_each].
  - apply propagates_ret.
  - apply propagates_bind; [apply Hb | intros _; exact IH].
Qed.

End Propagates.

Ltac propagates_struct :=
  repeat first
    [ assumption
    | apply propagates_ret | apply propagates_gets | apply propagates_modify
    | apply propagates_raise | apply propagates_call
    | apply propagates_emit; reflexivity
    | apply propagates_bind; [|intros ?]
    | apply propagates_for_each; intros ?
    | match goal with
      | |- propagates (if ?b then _ else _) => destruct b
      | |- propagates (match ?x with Some _ => _ | None => _ end) =>
          destruct x
      end
    | progress unfold_actions ].

Lemma train_loop_propagates criterion bs :
  forall a b c, propagates (train_loop criterion bs a b c).
Proof.
  induction bs as [|[inputs targets] rest IH]; intros a b c;
    cbn [train_loop]; propagates_struct.
  apply IH.
Qed.

Lemma val_loop_propagates criterion epoch bs :
  forall a b c, propagates (val_loop criterion epoch bs a b c).
Proof.
  induction bs as [|[inputs targets] rest IH]; intros a b c;
    cbn [val_loop]; propagates_struct.
  all: apply IH.
Qed.

Lemma train_propagates criterion n_epoch train_dl val_dl :
  propagates (train criterion n_epoch train_dl val_dl).
Proof.
  pose proof (train_loop_propagates criterion) as Ht.
  pose proof (val_loop_propagates criterion) as Hv.
  unfold train, train_init, run_epoch, train_pass, val_pass.
  propagates_struct.
  - apply Ht.
  - apply Hv.
Qed.

(** C8. If an exception is raised at any point of a run of [train] (by the
    model, the loss, a metric or any other call), the run ends with that
    exception: it is the last event, it is the only exception of the run,
    and the epoch in which it was raised is not recorded: the number [k] of
    summaries is below [n_epoch] and the histories still hold their initial
    0.0 from index [k] on. *)
Theorem exception_ends_run
    (criterion : tensor -> tensor -> result float) (n_epoch : nat)
    (train_dl val_dl : DataLoader) (w : world) (e : exn) :
  let t := train criterion n_epoch train_dl val_dl w in
  let k := length (summaries (events t)) in
  In (EvRaise e) (events t) ->
  res t = inl e /\
  raised (events t) = [e] /\
  (exists pre, events t = pre ++ [EvRaise e]) /\
  k < n_epoch /\
  forall j, k <= j < n_epoch ->
    train_losses (final t) !! j = Some 0%float /\
    val_losses (final t) !! j = Some 0%float.
Proof.
  intros t k Hin. subst k.
  pose proof (train_propagates criterion n_epoch train_dl val_dl w) as Hp.
  fold t in Hp. unfold exits_cleanly in Hp.
  apply in_raised in Hin.
  assert (Hres : res t = inl e /\ raised (events t) = [e] /\
                 exists pre, events t = pre ++ [EvRaise e]).
  { destruct (res t) as [e'|[]].
    - destruct Hp as (Hr & Hpre). rewrite Hr in Hin.
      destruct Hin as [->|[]]. auto.
    - rewrite Hp in Hin. destruct Hin. }
  destruct Hres as (Hres & Hr & Hpre).
  split; [exact Hres|]. split; [exact Hr|]. split; [exact Hpre|].
  subst t. rewrite train_unfold in *.
  set (w0 := set_ticks _ _) in *.
  destruct (epochs_recorded criterion n_epoch train_dl val_dl n_epoch 0 w0)
    as (_ & Hk & Hj).
  destruct (res (for_each _ _ w0)) as [e'|[]]; [|discriminate].
  cbn [events final].
  split; [exact Hk|].
  intros j Hrange. destruct (Hj eq_refl j) as (Ht & Hv); [lia|].
  rewrite Ht, Hv. subst w0. cbn [train_losses val_losses set_ticks
    set_best_psnr set_val_losses set_train_losses].
  rewrite !lookup_replicate_2 by lia. auto.
Qed.

(** ** The checkpoint policy as the code has it *)

Lemma train_pass_best criterion dl w :
  best_psnr (final (train_pass criterion dl w)) = best_psnr w.
Proof. apply (train_pass_locals criterion dl w). Qed.

Lemma val_pass_best criterion dl epoch w :
  best_psnr (final (val_pass criterion dl epoch w)) = best_psnr w.
Proof. apply (val_pass_locals criterion dl epoch w). Qed.

Lemma checkpoint_best vs epoch w :
  best_psnr (final (checkpoint vs epoch w)) = best_psnr w.
Proof. apply (checkpoint_locals vs epoch w). Qed.

(** C9. [best_psnr] is 0.0 when a run of [train] ends, however it ends and
    whatever the number of epochs, and no part of the loop (a pass, the
    checkpoint, an epoch, any number of epochs) changes it. So for every
    epoch that reached its summary, the checkpoint and the best-flagged
    images of that epoch were written if its validation PSNR is above 0.0,
    and were not written otherwise, whatever earlier epochs reached. *)
Theorem best_psnr_stays_zero
    (criterion : tensor -> tensor -> result float) (n_epoch : nat)
    (train_dl val_dl : DataLoader) (w : world) :
  let t := train criterion n_epoch train_dl val_dl w in
  let body := run_epoch criterion n_epoch train_dl val_dl in
  best_psnr (final t) = 0%float /\
  (forall w', best_psnr (final (train_pass criterion train_dl w'))
              = best_psnr w') /\
  (forall epoch w', best_psnr (final (val_pass criterion val_dl epoch w'))
                    = best_psnr w') /\
  (forall vs epoch w', best_psnr (final (checkpoint vs epoch w'))
                       = best_psnr w') /\
  (forall a k w', best_psnr (final (for_each (seq a k) body w'))
                  = best_psnr w') /\
  forall s vs, In (s, vs) (summaries (events t)) ->
    exists epoch, s = epoch + 1 /\ epoch < n_epoch /\
      if (0 <? psnr vs)%float
      then In (epoch, psnr vs) (checkpoints (events t)) /\
           exists outs, In (outs, epoch) (images true (events t))
      else ~ In epoch (map fst (checkpoints (events t))) /\
           ~ In epoch (map snd (images true (events t))).
Proof.
  intros t body.
  split; [|split; [|split; [|split; [|split]]]].
  - subst t. rewrite train_unfold. set (w0 := set_ticks _ _).
    destruct (epochs_recorded criterion n_epoch train_dl val_dl n_epoch 0 w0)
      as (Hb & _).
    destruct (res (for_each _ _ w0)); cbn [final]; exact Hb.
  - intros w'. apply train_pass_best.
  - intros epoch w'. apply val_pass_best.
  - intros vs epoch w'. apply checkpoint_best.
  - intros a k w'.
    apply (epochs_recorded criterion n_epoch train_dl val_dl k a w').
  - subst t. rewrite train_unfold. set (w0 := set_ticks _ _).
    destruct (epochs_checkpoints criterion n_epoch train_dl val_dl
                n_epoch 0 w0) as (_ & _ & _ & _ & Hsum).
    change (best_psnr w0) with 0%float in Hsum.
    assert (Hlt : forall s vs,
               In (s, vs) (summaries (events (for_each (seq 0 n_epoch)
                 (run_epoch criterion n_epoch train_dl val_dl) w0))) ->
               exists epoch, s = epoch + 1 /\ epoch < n_epoch /\
                 if (0 <? psnr vs)%float
                 then In (epoch, psnr vs) (checkpoints (events (for_each
                        (seq 0 n_epoch)
                        (run_epoch criterion n_epoch train_dl val_dl) w0)))
                      /\ exists outs, In (outs, epoch) (images true (events
                        (for_each (seq 0 n_epoch)
                        (run_epoch criterion n_epoch train_dl val_dl) w0)))
                 else ~ In epoch (map fst (checkpoints (events (for_each
                        (seq 0 n_epoch)
                        (run_epoch criterion n_epoch train_dl val_dl) w0))))
                      /\ ~ In epoch (map snd (images true (events (for_each
                        (seq 0 n_epoch)
                        (run_epoch criterion n_epoch train_dl val_dl) w0))))).
    { intros s vs Hin. destruct (Hsum s vs Hin) as (ep & -> & He & Hif).
      exists ep. split; [reflexivity|]. split; [lia|]. exact Hif. }
    destruct (res (for_each _ _ w0)); cbn [events]; [exact Hlt|].
    rewrite summaries_app, checkpoints_app, images_app.
    cbn [summaries checkpoints images flat_map]. rewrite !app_nil_r.
    exact Hlt.
Qed.

(** ** The passes, unfolded to their loops *)

Lemma train_pass_unfold criterion dl w :
  train_pass criterion dl w =
  bind (train_loop criterion (fst (dl_iter dl (generator w)))
                   0%float 0%float 0%float)
       (fun sums => finalize sums (dl_len dl))
       (set_generator (snd (dl_iter dl (generator w)))
                      (set_model_training true w)).
Proof.
  unfold train_pass, model_train, iterate.
  rewrite bind_modify, bind_assoc, bind_gets, bind_assoc, bind_modify,
    bind_ret_l.
  reflexivity.
Qed.

Lemma val_pass_unfold criterion dl epoch w :
  val_pass criterion dl epoch w =
  bind (val_loop criterion epoch (fst (dl_iter dl (generator w)))
                 0%float 0%float 0%float)
       (fun sums => finalize sums (dl_len dl))
       (set_generator (snd (dl_iter dl (generator w)))
                      (set_model_training false w)).
Proof.
  unfold val_pass, model_eval, iterate.
  rewrite bind_modify, bind_assoc, bind_gets, bind_assoc, bind_modify,
    bind_ret_l.
  reflexivity.
Qed.

Lemma finalize_zero sums w :
  finalize sums 0 w = mkOutcome [EvRaise ZeroDivisionError] w
                                (inl ZeroDivisionError).
Proof. reflexivity. Qed.

Lemma finalize_pos sums n w :
  n <> 0 ->
  finalize sums n w =
  mkOutcome [] w (inr (mkStats (loss sums / float_of_nat n)
                               (tensor_div (psnr sums) n)
                               (tensor_div (ssim sums) n))).
Proof.
  intros Hn. unfold finalize, pydiv.
  destruct n as [|n]; [contradiction|]. reflexivity.
Qed.

Lemma finalize_returns sums n w stats :
  res (finalize sums n w) = inr stats -> n <> 0.
Proof. intros H ->. rewrite finalize_zero in H. discriminate. Qed.

(** C10. A pass ends by dividing its three sums by [len(loader)]: with a
    length that is not 0 this gives the three quotients (of a Python float
    for the loss, of tensors for the PSNR and the SSIM) and has no other
    effect, with length 0 it raises [ZeroDivisionError]. So a pass that
    returns statistics had a loader of at least one batch; and on a loader
    of no batch the training pass, the validation pass and the epoch (with
    that loader for training, or for validation after a training pass that
    returned) end with [ZeroDivisionError]. *)
Theorem empty_loader_fails
    (criterion : tensor -> tensor -> result float) (n_epoch : nat)
    (dl other : DataLoader) (epoch : nat) (w : world) :
  dl_len dl = 0 -> well_formed dl ->
  (forall sums n w', n <> 0 ->
     finalize sums n w' =
     mkOutcome [] w' (inr (mkStats (loss sums / float_of_nat n)
                                   (tensor_div (psnr sums) n)
                                   (tensor_div (ssim sums) n)))) /\
  (forall (dl' : DataLoader) w' stats,
     res (train_pass criterion dl' w') = inr stats \/
     res (val_pass criterion dl' epoch w') = inr stats -> 0 < dl_len dl') /\
  res (train_pass criterion dl w) = inl ZeroDivisionError /\
  res (val_pass criterion dl epoch w) = inl ZeroDivisionError /\
  res (run_epoch criterion n_epoch dl other epoch w)
  = inl ZeroDivisionError /\
  (forall ts, res (train_pass criterion other w) = inr ts ->
     res (run_epoch criterion n_epoch other dl epoch w)
     = inl ZeroDivisionError).
Proof.
  intros Hlen Hwf.
  assert (Hnil : forall g, fst (dl_iter dl g) = []).
  { intros g. apply length_zero_iff_nil. rewrite (Hwf g). exact Hlen. }
  assert (Ht : forall w', res (train_pass criterion dl w')
                          = inl ZeroDivisionError).
  { intros w'. rewrite train_pass_unfold, Hnil, Hlen. reflexivity. }
  assert (Hv : forall w', res (val_pass criterion dl epoch w')
                          = inl ZeroDivisionError).
  { intros w'. rewrite val_pass_unfold, Hnil, Hlen. reflexivity. }
  split; [intros; apply finalize_pos; assumption|].
  split.
  { intros dl' w' stats [H|H];
      [rewrite train_pass_unfold in H | rewrite val_pass_unfold in H];
      apply bind_returns in H as (sums & _ & H);
      apply finalize_returns in H; lia. }
  split; [apply Ht|]. split; [apply Hv|]. split.
  - unfold run_epoch. rewrite (bind_inl _ _ _ _ (Ht w)). reflexivity.
  - intros ts Hts. unfold run_epoch.
    rewrite (bind_inr _ _ _ _ Hts). cbn [res].
    rewrite (bind_inl _ _ _ _ (Hv _)). reflexivity.
Qed.

(** ** The loss of a batch, and the statistics of a pass *)

Lemma call_composed_loss {B} criterion (O T : tensor) (K : float -> M B) w :
  bind (call (criterion O T)) (fun loss0 =>
    bind (call (vgg O)) (fun feat_o =>
      bind (call (vgg T)) (fun feat_t =>
        bind (call (mse_loss feat_o feat_t)) (fun m =>
          K (tensor_add loss0 (tensor_mul perceptual_loss_weight m)))))) w =
  bind (call (composed_loss criterion O T)) K w.
Proof.
  unfold composed_loss, ReconstructionLoss, Features, PerceptualLoss.
  destruct (criterion O T) as [e|rec]; cbn [call]; [reflexivity|].
  rewrite bind_ret_l.
  destruct (vgg O) as [e|FO]; cbn [call]; [reflexivity|].
  rewrite bind_ret_l.
  destruct (vgg T) as [e|FT]; cbn [call]; [reflexivity|].
  rewrite bind_ret_l.
  destruct (mse_loss FO FT) as [e|perc]; cbn [call]; [reflexivity|].
  rewrite !bind_ret_l. reflexivity.
Qed.

Lemma train_loop_step criterion inputs targets rest a b c w :
  train_loop criterion ((inputs, targets) :: rest) a b c w =
  bind (train_batch_values criterion (inputs, targets))
       (fun v => train_loop criterion rest (a + loss v)
                            (tensor_add b (psnr v))
                            (tensor_add c (ssim v))) w.
Proof.
  cbn [train_loop]. unfold train_batch_values. cbn [fst snd].
  rewrite bind_assoc. apply bind_ext. intros _ w1.
  rewrite bind_assoc. apply bind_ext. intros outs w2.
  rewrite bind_assoc.
  rewrite <- call_composed_loss.
  do 4 (apply bind_ext; intros ? ?).
  do 4 (rewrite bind_assoc; apply bind_ext; intros ? ?).
  rewrite bind_ret_l. reflexivity.
Qed.

Lemma val_loop_step criterion epoch inputs targets rest a b c w :
  val_loop criterion epoch ((inputs, targets) :: rest) a b c w =
  bind (val_batch_values criterion epoch (inputs, targets))
       (fun v => val_loop criterion epoch rest (a + loss v)
                          (tensor_add b (psnr v))
                          (tensor_add c (ssim v))) w.
Proof.
  cbn [val_loop]. unfold val_batch_values. cbn [fst snd].
  rewrite bind_assoc. apply bind_ext. intros _ w1.
  rewrite bind_assoc. apply bind_ext. intros outs w2.
  rewrite bind_assoc.
  rewrite <- call_composed_loss.
  do 4 (apply bind_ext; intros ? ?).
  do 3 (rewrite bind_assoc; apply bind_ext; intros ? ?).
  rewrite bind_ret_l. reflexivity.
Qed.

Lemma train_loop_per_batch criterion bs :
  forall a b c w,
    train_loop criterion bs a b c w =
    bind (per_batch (train_batch_values criterion) bs)
         (fun vals => ret (sums_from a b c vals)) w.
Proof.
  induction bs as [|[inputs targets] rest IH]; intros a b c w.
  - cbn [train_loop per_batch]. rewrite bind_ret_l. reflexivity.
  - rewrite train_loop_step. cbn [per_batch].
    rewrite bind_assoc. apply bind_ext. intros v w1.
    rewrite bind_assoc, IH. apply bind_ext. intros vs w2.
    rewrite bind_ret_l. reflexivity.
Qed.

Lemma val_loop_per_batch criterion epoch bs :
  forall a b c w,
    val_loop criterion epoch bs a b c w =
    bind (per_batch (val_batch_values criterion epoch) bs)
         (fun vals => ret (sums_from a b c vals)) w.
Proof.
  induction bs as [|[inputs targets] rest IH]; intros a b c w.
  - cbn [val_loop per_batch]. rewrite bind_ret_l. reflexivity.
  - rewrite val_loop_step. cbn [per_batch].
    rewrite bind_assoc. apply bind_ext. intros v w1.
    rewrite bind_assoc, IH. apply bind_ext. intros vs w2.
    rewrite bind_ret_l. reflexivity.
Qed.

Lemma per_batch_length step bs :
  forall w vals,
    res (per_batch step bs w) = inr vals -> length vals = length bs.
Proof.
  induction bs as [|b rest IH]; intros w vals; cbn [per_batch].
  - intros [= <-]. reflexivity.
  - intros H. apply bind_returns in H as (v & _ & H).
    apply bind_returns in H as (vs & Hvs & H).
    injection H as <-. cbn [length]. f_equal. exact (IH _ _ Hvs).
Qed.

Lemma means_of_sums vals n w :
  length vals = n -> n <> 0 ->
  finalize (sums_from 0 0 0 vals) n w = ret (mean_stats vals) w.
Proof.
  intros Hlen Hn. rewrite (finalize_pos _ _ _ Hn).
  unfold ret, mean_stats, arithmetic_mean, tensor_mean, sum_floats,
    sum_tensors, sums_from.
  cbn [loss psnr ssim]. rewrite !length_map, Hlen. reflexivity.
Qed.

Lemma pass_is_mean (step : batch -> M EpochStats) bs n w :
  length bs = n -> n <> 0 ->
  bind (bind (per_batch step bs)
             (fun vals => ret (sums_from 0 0 0 vals)))
       (fun sums => finalize sums n) w =
  bind (per_batch step bs) (fun vals => ret (mean_stats vals)) w.
Proof.
  intros Hlen Hn. rewrite bind_assoc.
  destruct (res (per_batch step bs w)) as [e|vals] eqn:R.
  - rewrite !(bind_inl _ _ _ _ R). reflexivity.
  - rewrite !(bind_inr _ _ _ _ R).
    rewrite bind_ret_l, means_of_sums; [reflexivity| |exact Hn].
    rewrite (per_batch_length _ _ _ _ R). exact Hlen.
Qed.

Lemma bind_cong_l {A B} (m m' : M A) (k : A -> M B) w :
  m w = m' w -> bind m k w = bind m' k w.
Proof. intros H. unfold bind. rewrite H. reflexivity. Qed.

(** C3. For a loader whose length is the number of its batches, and is not
    0, the training pass and the validation pass of the code do what the
    Epoch Runner of the specification does (same events, same final state,
    same result): they return, for the loss, the PSNR and the SSIM, the sum
    of the per-batch values, added from 0.0 in the order of the batches,
    divided by the number of batches. The sum and the quotient are those
    that the program computes: of Python floats for the loss, of float32
    tensors for the PSNR and the SSIM. *)
Theorem epoch_stats_are_means
    (criterion : tensor -> tensor -> result float)
    (dl : DataLoader) (epoch : nat) (w : world) :
  well_formed dl -> 0 < dl_len dl ->
  train_pass criterion dl w = train_pass_spec criterion dl w /\
  val_pass criterion dl epoch w = val_pass_spec criterion dl epoch w.
Proof.
  intros Hwf Hpos. split.
  - rewrite train_pass_unfold.
    unfold train_pass_spec, model_train, iterate.
    rewrite bind_modify, bind_assoc, bind_gets, bind_assoc, bind_modify,
      bind_ret_l.
    cbn [generator set_model_training].
    rewrite <- pass_is_mean with (n := dl_len dl); [|apply Hwf|lia].
    apply bind_cong_l, train_loop_per_batch.
  - rewrite val_pass_unfold.
    unfold val_pass_spec, model_eval, iterate.
    rewrite bind_modify, bind_assoc, bind_gets, bind_assoc, bind_modify,
      bind_ret_l.
    cbn [generator set_model_training].
    rewrite <- pass_is_mean with (n := dl_len dl); [|apply Hwf|lia].
    apply bind_cong_l, val_loop_per_batch.
Qed.

(** The loss and the metrics of a batch leave no trace but their values:
    the events and the state after the batch are those of the batch with
    their lines taken out. *)
Lemma train_batch_values_effects criterion b w v :
  res (train_batch_values criterion b w) = inr v ->
  events (train_batch_values criterion b w)
  = events (train_batch_effects b w) /\
  final (train_batch_values criterion b w)
  = final (train_batch_effects b w) /\
  exists outs,
    fst (model_forward (model_params w) (model_training w) (fst b)
                       (generator w)) = inr outs /\
    composed_loss criterion outs (snd b) = inr (loss v).
Proof.
  unfold train_batch_values, train_batch_effects, optimizer_zero_grad,
    model, loss_backward, optimizer_step_.
  exec. cbn [model_params model_training generator set_param_grads].
  destruct (fst (model_forward _ _ _ _)) as [e|outs]; exec;
    [discriminate|].
  destruct (composed_loss criterion outs (snd b)) as [e|l] eqn:El; exec;
    [discriminate|].
  repeat (match goal with
          | |- context [bind (call ?r) _ _] => destruct r as [?|?]
          end; exec; try discriminate).
  intros [= <-]. split; [reflexivity|]. split; [reflexivity|].
  exists outs. split; [reflexivity | exact El].
Qed.

Lemma val_batch_values_effects criterion epoch b w v :
  res (val_batch_values criterion epoch b w) = inr v ->
  events (val_batch_values criterion epoch b w)
  = events (val_batch_effects epoch b w) /\
  final (val_batch_values criterion epoch b w)
  = final (val_batch_effects epoch b w) /\
  exists outs,
    fst (model_forward (model_params w) (model_training w) (fst b)
                       (generator w)) = inr outs /\
    composed_loss criterion outs (snd b) = inr (loss v).
Proof.
  unfold val_batch_values, val_batch_effects, optimizer_zero_grad, model,
    save_output_images.
  exec. cbn [model_params model_training generator set_param_grads].
  destruct (fst (model_forward _ _ _ _)) as [e|outs]; exec;
    [discriminate|].
  destruct (composed_loss criterion outs (snd b)) as [e|l] eqn:El; exec;
    [discriminate|].
  repeat (match goal with
          | |- context [bind (call ?r) _ _] => destruct r as [?|?]
          end; exec; try discriminate).
  destruct (Nat.eqb _ 0); exec.
  - destruct (save_output_images_error _ _ _); exec; [discriminate|].
    intros [= <-]. split; [reflexivity|]. split; [reflexivity|].
    exists outs. split; [reflexivity | exact El].
  - intros [= <-]. split; [reflexivity|]. split; [reflexivity|].
    exists outs. split; [reflexivity | exact El].
Qed.

(** C4. In both loops the loss of a batch with outputs [O] and targets [T]
    is the answer of [composed_loss criterion O T], a function of [O] and
    [T] alone: when the four calls answer, it is
    [criterion O T + 0.5 * mse_loss (vgg O) (vgg T)], the product and the
    sum being those of float32 tensors; it is what [train_loss] and
    [val_loss] add up, as Python floats. Computing it, and the metrics,
    leaves no trace: a batch that returns has the events and the final
    state (weights, mode, gradients, optimizer, generators, locals) of the
    same batch with the lines of the loss and of the metrics taken out.
    The script passes [mse_loss] as [criterion]. *)
Theorem loss_is_composed
    (criterion : tensor -> tensor -> result float) (epoch : nat)
    (inputs targets : tensor) (rest : list batch) (a b c : float)
    (w : world) :
  train_loop criterion ((inputs, targets) :: rest) a b c w =
  bind (train_batch_values criterion (inputs, targets))
       (fun v => train_loop criterion rest (a + loss v)
                            (tensor_add b (psnr v))
                            (tensor_add c (ssim v))) w /\
  val_loop criterion epoch ((inputs, targets) :: rest) a b c w =
  bind (val_batch_values criterion epoch (inputs, targets))
       (fun v => val_loop criterion epoch rest (a + loss v)
                          (tensor_add b (psnr v))
                          (tensor_add c (ssim v))) w /\
  (forall O T rec FO FT perc,
     criterion O T = inr rec -> vgg O = inr FO -> vgg T = inr FT ->
     mse_loss FO FT = inr perc ->
     composed_loss criterion O T
     = inr (tensor_add rec (tensor_mul 0.5 perc))) /\
  (forall v,
     res (train_batch_values criterion (inputs, targets) w) = inr v ->
     events (train_batch_values criterion (inputs, targets) w)
     = events (train_batch_effects (inputs, targets) w) /\
     final (train_batch_values criterion (inputs, targets) w)
     = final (train_batch_effects (inputs, targets) w) /\
     exists outs,
       fst (model_forward (model_params w) (model_training w) inputs
                          (generator w)) = inr outs /\
       composed_loss criterion outs targets = inr (loss v)) /\
  (forall v,
     res (val_batch_values criterion epoch (inputs, targets) w) = inr v ->
     events (val_batch_values criterion epoch (inputs, targets) w)
     = events (val_batch_effects epoch (inputs, targets) w) /\
     final (val_batch_values criterion epoch (inputs, targets) w)
     = final (val_batch_effects epoch (inputs, targets) w) /\
     exists outs,
       fst (model_forward (model_params w) (model_training w) inputs
                          (generator w)) = inr outs /\
       composed_loss criterion outs targets = inr (loss v)) /\
  (forall env train_dl val_dl,
     main env train_dl val_dl
     = train mse_loss EPOCHS train_dl val_dl (main_world env)).
Proof.
  split; [apply train_loop_step|]. split; [apply val_loop_step|].
  split; [|split; [|split]].
  - intros O T rec FO FT perc Hrec HFO HFT Hperc.
    unfold composed_loss, ReconstructionLoss, Features, PerceptualLoss.
    rewrite Hrec, HFO, HFT, Hperc. reflexivity.
  - intros v Hv. exact (train_batch_values_effects _ _ _ _ Hv).
  - intros v Hv. exact (val_batch_values_effects _ _ _ _ _ Hv).
  - intros env train_dl val_dl. reflexivity.
Qed.

(** ** The clock *)

Section ClockFree.

Lemma clock_free_ret {A} (a : A) : clock_free (ret a).
Proof. intros c w. reflexivity. Qed.

Lemma clock_free_gets {A} (f : world -> A) :
  (forall c w, f (set_clock c w) = f w) -> clock_free (gets f).
Proof. intros H c w. unfold gets. rewrite H. reflexivity. Qed.

Lemma clock_free_modify (f : world -> world) :
  (forall c w, f (set_clock c w) = set_clock c (f w)) ->
  clock_free (modify f).
Proof. intros H c w. unfold modify. rewrite H. reflexivity. Qed.

Lemma clock_free_emit (ev : event) : clock_free (emit ev).
Proof. intros c w. reflexivity. Qed.

Lemma clock_free_raise {A} (e : exn) : clock_free (@raise _ A e).
Proof. intros c w. reflexivity. Qed.

Lemma clock_free_call {A} (r : result A) : clock_free (call r).
Proof. destruct r; [apply clock_free_raise | apply clock_free_ret]. Qed.

Lemma clock_free_bind {A B} (m : M A) (k : A -> M B) :
  clock_free m -> (forall a, clock_free (k a)) -> clock_free (bind m k).
Proof.
  intros Hm Hk c w. unfold bind. rewrite (Hm c w).
  destruct (m w) as [evs w1 [e|a]]; cbn [events final res];
    [reflexivity|].
  rewrite (Hk a c w1). destruct (k a w1); reflexivity.
Qed.

Lemma clock_free_for_each {A} (xs : list A) (body : A -> M unit) :
  (forall x, clock_free (body x)) -> clock_free (for_each xs body).
Proof.
  intros Hb. induction xs as [|x xs IH]; cbn [for_each].
  - apply clock_free_ret.
  - apply clock_free_bind; [apply Hb | intros _; exact IH].
Qed.

End ClockFree.

Ltac clock_free_struct :=
  repeat first
    [ assumption
    | apply clock_free_ret | apply clock_free_raise | apply clock_free_call
    | apply clock_free_emit
    | apply clock_free_gets; reflexivity
    | apply clock_free_modify; reflexivity
    | apply clock_free_bind; [|intros ?]
    | apply clock_free_for_each; intros ?
    | match goal with
      | |- clock_free (if ?b then _ else _) => destruct b
      | |- clock_free (match ?x with Some _ => _ | None => _ end) =>
          destruct x
      end
    | progress unfold_actions ].

Lemma train_loop_clock_free criterion bs :
  forall a b c, clock_free (train_loop criterion bs a b c).
Proof.
  induction bs as [|[inputs targets] rest IH]; intros a b c;
    cbn [train_loop]; clock_free_struct.
  apply IH.
Qed.

Lemma val_loop_clock_free criterion epoch bs :
  forall a b c, clock_free (val_loop criterion epoch bs a b c).
Proof.
  induction bs as [|[inputs targets] rest IH]; intros a b c;
    cbn [val_loop]; clock_free_struct.
  all: apply IH.
Qed.

Lemma epochs_clock_free criterion n_epoch train_dl val_dl a n :
  clock_free (for_each (seq a n)
                       (run_epoch criterion n_epoch train_dl val_dl)).
Proof.
  pose proof (train_loop_clock_free criterion) as Ht.
  pose proof (val_loop_clock_free criterion) as Hv.
  unfold run_epoch, train_pass, val_pass.
  clock_free_struct.
  - apply Ht.
  - apply Hv.
Qed.

(** What [train] records does not depend on the clock. *)
Lemma train_clock criterion n_epoch train_dl val_dl c w :
  let t := train criterion n_epoch train_dl val_dl w in
  let t' := train criterion n_epoch train_dl val_dl (set_clock c w) in
  histories (final t') = histories (final t) /\
  summaries (events t') = summaries (events t) /\
  checkpoints (events t') = checkpoints (events t) /\
  res t' = res t.
Proof.
  intros t t'. subst t t'. rewrite !train_unfold.
  set (w0 := set_ticks (S (ticks w)) _).
  change (set_ticks (S (ticks (set_clock c w))) _) with (set_clock c w0).
  rewrite (epochs_clock_free criterion n_epoch train_dl val_dl 0 n_epoch
             c w0).
  cbn [events final res].
  destruct (res (for_each _ _ w0)); cbn [events final res].
  - repeat split; reflexivity.
  - rewrite !summaries_app, !checkpoints_app. repeat split; reflexivity.
Qed.

(** C7. Two runs of the script on the same loaders, started in whatever
    state of the random generators and under whatever clock, record the
    same training losses and the same validation losses, print the same
    epoch summaries, write the same checkpoints and end the same way: the
    script sets every generator from the seed 42 before anything is drawn,
    and the clock is read for the elapsed time only. *)
Theorem same_seed_same_histories
    (train_dl val_dl : DataLoader) (env1 env2 : Env) :
  let run1 := main env1 train_dl val_dl in
  let run2 := main env2 train_dl val_dl in
  histories (final run1) = histories (final run2) /\
  summaries (events run1) = summaries (events run2) /\
  checkpoints (events run1) = checkpoints (events run2) /\
  res run1 = res run2.
Proof.
  intros run1 run2. subst run1 run2. unfold main.
  change (main_world env1)
    with (set_clock (env_clock env1) (main_world env2)).
  apply train_clock.
Qed.

(** ** The images of the validation pass *)

Lemma val_batch_values_images criterion epoch b w v :
  (epoch + 1) mod 20 = 0 ->
  res (val_batch_values criterion epoch b w) = inr v ->
  exists outs,
    fst (model_forward (model_params w) (model_training w) (fst b)
                       (generator w)) = inr outs /\
    images false (events (val_batch_values criterion epoch b w))
    = [(outs, epoch)] /\
    outputs (final (val_batch_values criterion epoch b w)) = Some outs.
Proof.
  intros Hq. apply Nat.eqb_eq in Hq.
  unfold val_batch_values, optimizer_zero_grad, model, save_output_images.
  rewrite Hq. exec.
  cbn [model_params model_training generator set_param_grads].
  destruct (fst (model_forward _ _ _ _)) as [e|outs]; exec;
    [discriminate|].
  repeat (match goal with
          | |- context [bind (call ?r) _ _] => destruct r as [?|?]
          end; exec; try discriminate).
  destruct (save_output_images_error _ _ _); exec; [discriminate|].
  intros _. exists outs. cbn. repeat split; reflexivity.
Qed.

Lemma val_loop_images criterion epoch bs :
  (epoch + 1) mod 20 = 0 ->
  forall a b c w s,
    res (val_loop criterion epoch bs a b c w) = inr s ->
    length (images false (events (val_loop criterion epoch bs a b c w)))
    = length bs /\
    (bs <> [] ->
     exists outs,
       outputs (final (val_loop criterion epoch bs a b c w)) = Some outs /\
       last (images false (events (val_loop criterion epoch bs a b c w)))
       = Some (outs, epoch)).
Proof.
  intros Hq. induction bs as [|[inputs targets] rest IH]; intros a b c w s.
  - intros _. split; [reflexivity|]. intros []. reflexivity.
  - rewrite val_loop_step. intros H.
    destruct (bind_returns _ _ _ _ H) as (v & Hv & Hrest).
    rewrite (bind_inr _ _ _ _ Hv). cbn [events final res].
    destruct (val_batch_values_images _ _ _ _ _ Hq Hv)
      as (outs & _ & Hi & Ho).
    destruct (IH _ _ _ _ _ Hrest) as (Hlen & Hlast).
    rewrite images_app, Hi. cbn [app length]. split; [congruence|].
    intros _. destruct rest as [|b' rest'].
    + cbn [val_loop ret events final images flat_map last]. eauto.
    + destruct Hlast as (outs' & Ho' & Hl'); [discriminate|].
      exists outs'. split; [exact Ho'|].
      rewrite last_cons, Hl'. reflexivity.
Qed.

Lemma val_loop_first_image criterion epoch inputs targets rest a b c w s :
  (epoch + 1) mod 20 = 0 ->
  res (val_loop criterion epoch ((inputs, targets) :: rest) a b c w)
  = inr s ->
  exists outs later,
    fst (model_forward (model_params w) (model_training w) inputs
                       (generator w)) = inr outs /\
    images false
      (events (val_loop criterion epoch ((inputs, targets) :: rest) a b c w))
    = (outs, epoch) :: later /\
    length later = length rest.
Proof.
  intros Hq. rewrite val_loop_step. intros H.
  destruct (bind_returns _ _ _ _ H) as (v & Hv & Hrest).
  rewrite (bind_inr _ _ _ _ Hv). cbn [events].
  destruct (val_batch_values_images _ _ _ _ _ Hq Hv)
    as (outs & Hout & Hi & _).
  destruct (val_loop_images criterion epoch rest Hq _ _ _ _ _ Hrest)
    as (Hlen & _).
  exists outs. eexists. split; [exact Hout|].
  rewrite images_app, Hi. split; [reflexivity | exact Hlen].
Qed.

Lemma val_pass_images criterion dl epoch w stats :
  (epoch + 1) mod 20 = 0 ->
  res (val_pass criterion dl epoch w) = inr stats ->
  length (images false (events (val_pass criterion dl epoch w)))
  = length (fst (dl_iter dl (generator w))) /\
  (fst (dl_iter dl (generator w)) <> [] ->
   exists outs,
     outputs (final (val_pass criterion dl epoch w)) = Some outs /\
     last (images false (events (val_pass criterion dl epoch w)))
     = Some (outs, epoch)).
Proof.
  intros Hq. rewrite val_pass_unfold. intros H.
  destruct (bind_returns _ _ _ _ H) as (sums & Hloop & Hfin).
  rewrite (bind_inr _ _ _ _ Hloop). cbn [events final].
  rewrite (finalize_pos _ _ _ (finalize_returns _ _ _ _ Hfin)).
  cbn [events final]. rewrite app_nil_r.
  exact (val_loop_images criterion epoch _ Hq _ _ _ _ _ Hloop).
Qed.

(** C5, as the code has it. In the validation pass of [epoch] (0-based, the
    loop variable) no best-flagged image is written, and every image write
    carries [epoch]; when [epoch + 1] is not a multiple of 20 there is no
    image write; when it is, and the pass returns, there is one image write
    for each validation batch, and (with at least one batch) the last of
    them carries the outputs of the last batch, those that the variable
    [outputs] holds when the pass ends; the first image write of the loop
    over a batch and the rest carries what the model answers on that batch,
    and as many follow as there are batches in the rest. Over a run of
    [train], the image writes that are not best-flagged carry an [epoch]
    with [epoch + 1] a multiple of 20, and each best-flagged image write
    carries the epoch of a checkpoint written in the run. *)
Theorem periodic_images_every_batch
    (criterion : tensor -> tensor -> result float) (n_epoch : nat)
    (train_dl val_dl : DataLoader) (epoch : nat) (w : world) :
  let v := val_pass criterion val_dl epoch w in
  let batches := fst (dl_iter val_dl (generator w)) in
  let t := train criterion n_epoch train_dl val_dl w in
  images true (events v) = [] /\
  Forall (fun i => snd i = epoch) (images false (events v)) /\
  ((epoch + 1) mod 20 <> 0 -> images false (events v) = []) /\
  ((epoch + 1) mod 20 = 0 -> forall stats, res v = inr stats ->
     length (images false (events v)) = length batches /\
     (batches <> [] ->
      exists outs,
        outputs (final v) = Some outs /\
        last (images false (events v)) = Some (outs, epoch))) /\
  ((epoch + 1) mod 20 = 0 ->
   forall inputs targets rest a b c w' s,
     res (val_loop criterion epoch ((inputs, targets) :: rest) a b c w')
     = inr s ->
     exists outs later,
       fst (model_forward (model_params w') (model_training w') inputs
                          (generator w')) = inr outs /\
       images false
         (events (val_loop criterion epoch ((inputs, targets) :: rest)
                           a b c w'))
       = (outs, epoch) :: later /\
       length later = length rest) /\
  Forall (fun i => (snd i + 1) mod 20 = 0) (images false (events t)) /\
  (forall i, In i (images true (events t)) ->
             exists p, In (snd i, p) (checkpoints (events t))).
Proof.
  intros v batches t.
  destruct (val_pass_locals criterion val_dl epoch w) as (_ & _ & _ & Hev).
  destruct (validation_events_silent _ _ Hev) as (_ & _ & Ht & Hf & Hn).
  split; [exact Ht|]. split; [exact Hf|]. split; [exact Hn|].
  split; [intros Hq stats Hres; exact (val_pass_images _ _ _ _ _ Hq Hres)|].
  split; [intros Hq inputs targets rest a b c w' s Hres;
          exact (val_loop_first_image _ _ _ _ _ _ _ _ _ _ Hq Hres)|].
  subst t. rewrite train_unfold. set (w0 := set_ticks _ _).
  destruct (epochs_checkpoints criterion n_epoch train_dl val_dl
              n_epoch 0 w0) as (_ & _ & Hper & Hbest & _).
  destruct (res (for_each _ _ w0)); cbn [events].
  - split; assumption.
  - rewrite !images_app, checkpoints_app. cbn [images checkpoints flat_map].
    rewrite !app_nil_r. split; assumption.
Qed.
(** ** The histories and the summaries *)

Lemma epoch_lines_app (e1 e2 : list event) :
  epoch_lines (e1 ++ e2) = epoch_lines e1 ++ epoch_lines e2.
Proof. apply flat_map_app. Qed.

Lemma summaries_of_lines (evs : list event) :
  summaries evs = map (fun l => (fst (fst (fst l)), snd l)) (epoch_lines evs).
Proof.
  induction evs as [|ev evs IH]; [reflexivity|].
  destruct ev; cbn [summaries epoch_lines flat_map app map] in *;
    try exact IH.
  f_equal. exact IH.
Qed.

Lemma no_summaries_no_lines (evs : list event) :
  summaries evs = [] -> epoch_lines evs = [].
Proof.
  rewrite summaries_of_lines. destruct (epoch_lines evs); [reflexivity|].
  discriminate.
Qed.

Lemma unrecorded_no_lines (evp : list event) :
  unrecorded evp -> epoch_lines evp = [].
Proof. intros [-> | ->]; reflexivity. Qed.

Lemma run_epoch_lines criterion n_epoch train_dl val_dl epoch w :
  let r := run_epoch criterion n_epoch train_dl val_dl epoch w in
  match res r with
  | inl _ => epoch_lines (events r) = []
  | inr _ =>
      exists ts vs,
        epoch_lines (events r) = [(epoch + 1, n_epoch, ts, vs)] /\
        train_losses (final r) = <[epoch := loss ts]> (train_losses w) /\
        val_losses (final r) = <[epoch := loss vs]> (val_losses w)
  end.
Proof.
  intros r.
  destruct (run_epoch_events criterion n_epoch train_dl val_dl epoch w)
    as (_ & _ & _ & evt & evv & evc & evp & vs & Hev & Ht & Hv & Hc & _
        & Hend).
  fold r in Hev, Hend.
  destruct (training_events_silent _ Ht) as (_ & St & _).
  destruct (validation_events_silent _ _ Hv) as (_ & Sv & _).
  destruct (checkpoint_events_silent _ _ _ Hc) as (Sc & _).
  assert (HL : epoch_lines (events r) = epoch_lines evp).
  { rewrite Hev, !epoch_lines_app, (no_summaries_no_lines _ St),
      (no_summaries_no_lines _ Sv), (no_summaries_no_lines _ Sc).
    reflexivity. }
  rewrite HL.
  destruct Hend as [(ex & -> & Hun & _)
                   | (ts & -> & -> & _ & _ & Htl & Hvl & _)].
  - exact (unrecorded_no_lines _ Hun).
  - exists ts, vs. repeat split; assumption.
Qed.

Lemma epochs_lines criterion n_epoch train_dl val_dl n :
  forall a w,
    let o := for_each (seq a n)
                      (run_epoch criterion n_epoch train_dl val_dl) w in
    length (train_losses w) = length (val_losses w) ->
    forall j k' n' ts vs,
      epoch_lines (events o) !! j = Some (k', n', ts, vs) ->
      k' = a + j + 1 /\ n' = n_epoch /\
      (a + j < length (train_losses w) ->
       train_losses (final o) !! (a + j) = Some (loss ts)) /\
      (a + j < length (val_losses w) ->
       val_losses (final o) !! (a + j) = Some (loss vs)).
Proof.
  induction n as [|n IH]; intros a w; cbn [seq for_each].
  - cbn. intros _ j k' n' ts vs Hj. discriminate Hj.
  - pose proof (run_epoch_lines criterion n_epoch train_dl val_dl a w)
      as Hres. cbn zeta in Hres.
    destruct (run_epoch_lengths criterion n_epoch train_dl val_dl a w)
      as (Lt & Lv).
    set (body := run_epoch criterion n_epoch train_dl val_dl) in *.
    intros Heq.
    destruct (res (body a w)) as [ex|[]] eqn:R.
    + rewrite (bind_inl _ _ _ _ R). cbn [events final].
      rewrite Hres.
      intros j k' n' ts vs Hj. discriminate Hj.
    + rewrite (bind_inr _ _ _ _ R). cbn [events final].
      destruct Hres as (ts & vs & Hl & Ht & Hv).
      assert (Heq' : length (train_losses (final (body a w)))
                     = length (val_losses (final (body a w))))
        by congruence.
      pose proof (IH (S a) (final (body a w)) Heq') as Hlook.
      destruct (epochs_recorded criterion n_epoch train_dl val_dl n (S a)
                  (final (body a w))) as (_ & _ & Hout).
      fold body in Hout. specialize (Hout Heq').
      rewrite epoch_lines_app, Hl. cbn [app].
      intros [|j] k' n' ts' vs' Hj.
      * injection Hj as <- <- <- <-.
        split; [lia|]. split; [reflexivity|].
        destruct (Hout (a + 0)) as (Ho1 & Ho2); [lia|].
        rewrite Ho1, Ho2, Ht, Hv. rewrite Nat.add_0_r.
        split; intros Hlt; apply list_lookup_insert_eq; exact Hlt.
      * cbn in Hj. destruct (Hlook j k' n' ts' vs' Hj)
          as (-> & -> & Hjt & Hjv).
        split; [lia|]. split; [reflexivity|].
        rewrite Lt in Hjt. rewrite Lv in Hjv.
        replace (a + S j) with (S a + j) by lia.
        split; assumption.
Qed.

(** X1. The two histories have [n_epoch] entries when a run of [train]
    ends, however it ends. The summaries printed are numbered 1, 2, ... in
    order, each shows [n_epoch] as the total, and the entries of the
    histories at the index of a summary are the training loss and the
    validation loss it shows; the entries after the last summary are 0.0.
    All [n_epoch] summaries are printed if the run returns, fewer if not. *)
Theorem histories_follow_summaries
    (criterion : tensor -> tensor -> result float) (n_epoch : nat)
    (train_dl val_dl : DataLoader) (w : world) :
  let t := train criterion n_epoch train_dl val_dl w in
  let lines := epoch_lines (events t) in
  length (train_losses (final t)) = n_epoch /\
  length (val_losses (final t)) = n_epoch /\
  match res t with
  | inr _ => length lines = n_epoch
  | inl _ => length lines < n_epoch
  end /\
  (forall j k' n' ts vs,
     lines !! j = Some (k', n', ts, vs) ->
     k' = j + 1 /\ n' = n_epoch /\
     train_losses (final t) !! j = Some (loss ts) /\
     val_losses (final t) !! j = Some (loss vs)) /\
  (forall j, length lines <= j < n_epoch ->
     train_losses (final t) !! j = Some 0%float /\
     val_losses (final t) !! j = Some 0%float).
Proof.
  intros t lines. subst lines t. rewrite train_unfold.
  set (w0 := set_ticks _ _).
  destruct (epochs_lengths criterion n_epoch train_dl val_dl n_epoch 0 w0)
    as (Lt & Lv).
  pose proof (epochs_lines criterion n_epoch train_dl val_dl n_epoch 0 w0
                eq_refl) as Hlook.
  destruct (epochs_recorded criterion n_epoch train_dl val_dl n_epoch 0 w0)
    as (_ & Hk & Hout).
  specialize (Hout eq_refl).
  rewrite summaries_of_lines, length_map in Hk, Hout.
  change (train_losses w0) with (replicate n_epoch 0%float) in *.
  change (val_losses w0) with (replicate n_epoch 0%float) in *.
  rewrite length_replicate in Lt, Lv, Hlook.
  set (o := for_each _ _ w0) in *.
  assert (Hle : length (epoch_lines (events o)) <= n_epoch)
    by (destruct (res o); lia).
  assert (Hin : forall j k' n' ts vs,
             epoch_lines (events o) !! j = Some (k', n', ts, vs) ->
             k' = j + 1 /\ n' = n_epoch /\
             train_losses (final o) !! j = Some (loss ts) /\
             val_losses (final o) !! j = Some (loss vs)).
  { intros j k' n' ts vs Hj.
    pose proof (lookup_lt_Some _ _ _ Hj) as Hlt.
    destruct (Hlook j k' n' ts vs Hj) as (-> & -> & Ht & Hv).
    cbn [Nat.add] in Ht, Hv.
    repeat split; [apply Ht | apply Hv]; lia. }
  assert (Hafter : forall j, length (epoch_lines (events o)) <= j < n_epoch ->
             train_losses (final o) !! j = Some 0%float /\
             val_losses (final o) !! j = Some 0%float).
  { intros j Hj. destruct (Hout j) as (Ht & Hv); [lia|].
    rewrite Ht, Hv, !lookup_replicate_2 by lia. auto. }
  destruct (res o); cbn [events final res].
  - split; [exact Lt|]. split; [exact Lv|]. split; [exact Hk|].
    split; [exact Hin | exact Hafter].
  - rewrite epoch_lines_app. cbn [epoch_lines flat_map]. rewrite app_nil_r.
    cbn [train_losses val_losses set_ticks].
    split; [exact Lt|]. split; [exact Lv|]. split; [exact Hk|].
    split; [exact Hin | exact Hafter].
Qed.

(** ** The clock and the completion line *)

Lemma completions_app (e1 e2 : list event) :
  completions (e1 ++ e2) = completions e1 ++ completions e2.
Proof. apply flat_map_app. Qed.

Lemma time_kept_frame : Frame time_kept.
Proof.
  split; unfold time_kept.
  - intros w. auto.
  - intros w1 e1 w2 e2 w3 (C1 & T1 & E1) (C2 & T2 & E2).
    rewrite completions_app, E1, E2. repeat split; congruence.
  - intros w e. auto.
Qed.

Ltac time_leaf := unfold time_kept; cbn; auto.

Lemma train_loop_time criterion bs :
  forall a b c, keeps time_kept (train_loop criterion bs a b c).
Proof.
  induction bs as [|[inputs targets] rest IH]; intros a b c;
    cbn [train_loop]; keeps_struct time_kept_frame time_leaf.
Qed.

Lemma val_loop_time criterion epoch bs :
  forall a b c, keeps time_kept (val_loop criterion epoch bs a b c).
Proof.
  induction bs as [|[inputs targets] rest IH]; intros a b c;
    cbn [val_loop]; keeps_struct time_kept_frame time_leaf.
Qed.

Lemma epochs_time criterion n_epoch train_dl val_dl a n :
  keeps time_kept (for_each (seq a n)
                            (run_epoch criterion n_epoch train_dl val_dl)).
Proof.
  pose proof (train_loop_time criterion) as Ht.
  pose proof (val_loop_time criterion) as Hv.
  unfold run_epoch, train_pass, val_pass.
  keeps_struct time_kept_frame time_leaf.
Qed.

(** X2. [train] reads the clock before the first epoch and, if the loop
    returns, once more after the last; nothing else reads or changes it. A
    run that returns ends with the completion line, printed once, with the
    second reading minus the first; a run that an exception ends prints no
    completion line and has read the clock once. *)
Theorem completion_line
    (criterion : tensor -> tensor -> result float) (n_epoch : nat)
    (train_dl val_dl : DataLoader) (w : world) :
  let t := train criterion n_epoch train_dl val_dl w in
  clock (final t) = clock w /\
  match res t with
  | inr _ =>
      exists evs,
        events t =
        evs ++ [EvPrintCompleted (clock w (S (ticks w)) - clock w (ticks w))]
        /\ completions evs = [] /\
        ticks (final t) = ticks w + 2
  | inl _ =>
      completions (events t) = [] /\ ticks (final t) = ticks w + 1
  end.
Proof.
  intros t. subst t. rewrite train_unfold. set (w0 := set_ticks _ _).
  destruct (epochs_time criterion n_epoch train_dl val_dl 0 n_epoch w0)
    as (Hc & Ht & He).
  change (clock w0) with (clock w) in Hc.
  change (ticks w0) with (S (ticks w)) in Ht.
  destruct (res (for_each _ _ w0)); cbn [events final res].
  - split; [exact Hc|]. split; [exact He | lia].
  - cbn [clock ticks set_ticks]. split; [exact Hc|].
    eexists. rewrite Hc, Ht. split; [reflexivity|]. split; [exact He | lia].
Qed.

(** ** The calls on the optimizer *)

Lemma optimizer_calls_app (e1 e2 : list event) :
  optimizer_calls (e1 ++ e2) = optimizer_calls e1 ++ optimizer_calls e2.
Proof. apply flat_map_app. Qed.

Lemma times_S {A} n (l : list A) : times (S n) l = l ++ times n l.
Proof. reflexivity. Qed.

Lemma train_batch_values_calls criterion b w v :
  res (train_batch_values criterion b w) = inr v ->
  events (train_batch_values criterion b w)
  = [EvZeroGrad; EvBackward; EvStep].
Proof.
  unfold train_batch_values, optimizer_zero_grad, model, loss_backward,
    optimizer_step_.
  exec.
  repeat (match goal with
          | |- context [bind (call ?r) _ _] => destruct r as [?|?]
          end; exec; try discriminate).
  reflexivity.
Qed.

Lemma train_loop_calls criterion bs :
  forall a b c w s,
    res (train_loop criterion bs a b c w) = inr s ->
    events (train_loop criterion bs a b c w)
    = times (length bs) [EvZeroGrad; EvBackward; EvStep].
Proof.
  induction bs as [|[inputs targets] rest IH]; intros a b c w s.
  - reflexivity.
  - rewrite train_loop_step. intros H.
    destruct (bind_returns _ _ _ _ H) as (v & Hv & Hrest).
    rewrite (bind_inr _ _ _ _ Hv). cbn [events].
    rewrite (train_batch_values_calls _ _ _ _ Hv), (IH _ _ _ _ _ Hrest).
    reflexivity.
Qed.

Lemma val_batch_values_calls criterion epoch b w v :
  res (val_batch_values criterion epoch b w) = inr v ->
  optimizer_calls (events (val_batch_values criterion epoch b w))
  = [EvZeroGrad] /\
  param_grads (final (val_batch_values criterion epoch b w))
  = zero_grad (param_grads w).
Proof.
  unfold val_batch_values, optimizer_zero_grad, model, save_output_images.
  exec.
  repeat (match goal with
          | |- context [bind (call ?r) _ _] => destruct r as [?|?]
          end; exec; try discriminate).
  destruct (Nat.eqb _ 0); exec; [|intros _; split; reflexivity].
  destruct (save_output_images_error _ _ _); exec; [discriminate|].
  intros _. split; reflexivity.
Qed.

Lemma val_loop_calls criterion epoch bs :
  forall a b c w s,
    res (val_loop criterion epoch bs a b c w) = inr s ->
    optimizer_calls (events (val_loop criterion epoch bs a b c w))
    = replicate (length bs) EvZeroGrad /\
    param_grads (final (val_loop criterion epoch bs a b c w))
    = Nat.iter (length bs) zero_grad (param_grads w).
Proof.
  induction bs as [|[inputs targets] rest IH]; intros a b c w s.
  - intros _. split; reflexivity.
  - rewrite val_loop_step. intros H.
    destruct (bind_returns _ _ _ _ H) as (v & Hv & Hrest).
    rewrite (bind_inr _ _ _ _ Hv). cbn [events final].
    destruct (val_batch_values_calls _ _ _ _ _ Hv) as (Hc & Hg).
    destruct (IH _ _ _ _ _ Hrest) as (Hc' & Hg').
    rewrite optimizer_calls_app, Hc, Hc', Hg', Hg.
    cbn [length]. rewrite Nat.iter_succ_r. split; reflexivity.
Qed.

Lemma train_pass_calls criterion dl w stats :
  res (train_pass criterion dl w) = inr stats ->
  events (train_pass criterion dl w)
  = times (length (fst (dl_iter dl (generator w))))
          [EvZeroGrad; EvBackward; EvStep].
Proof.
  rewrite train_pass_unfold. intros H.
  destruct (bind_returns _ _ _ _ H) as (sums & Hloop & Hfin).
  rewrite (bind_inr _ _ _ _ Hloop). cbn [events].
  rewrite (finalize_pos _ _ _ (finalize_returns _ _ _ _ Hfin)).
  cbn [events]. rewrite app_nil_r.
  exact (train_loop_calls criterion _ _ _ _ _ _ Hloop).
Qed.

Lemma val_pass_calls criterion dl epoch w stats :
  res (val_pass criterion dl epoch w) = inr stats ->
  optimizer_calls (events (val_pass criterion dl epoch w))
  = replicate (length (fst (dl_iter dl (generator w)))) EvZeroGrad /\
  param_grads (final (val_pass criterion dl epoch w))
  = Nat.iter (length (fst (dl_iter dl (generator w)))) zero_grad
             (param_grads w).
Proof.
  rewrite val_pass_unfold. intros H.
  destruct (bind_returns _ _ _ _ H) as (sums & Hloop & Hfin).
  rewrite (bind_inr _ _ _ _ Hloop). cbn [events final].
  rewrite (finalize_pos _ _ _ (finalize_returns _ _ _ _ Hfin)).
  cbn [events final]. rewrite app_nil_r.
  exact (val_loop_calls criterion epoch _ _ _ _ _ _ Hloop).
Qed.

(** X3. A training pass that returns has done nothing that shows but, for
    each batch in order, one [optimizer.zero_grad()], one [loss.backward()]
    and one [optimizer.step()]: it writes no checkpoint and no image and
    prints nothing. *)
Theorem training_pass_calls
    (criterion : tensor -> tensor -> result float) (dl : DataLoader)
    (w : world) (stats : EpochStats) :
  res (train_pass criterion dl w) = inr stats ->
  events (train_pass criterion dl w)
  = times (length (fst (dl_iter dl (generator w))))
          [EvZeroGrad; EvBackward; EvStep].
Proof. intros H. exact (train_pass_calls _ _ _ _ H). Qed.

(** X4. A validation pass that returns has called
    [optimizer.zero_grad()] once for each batch and nothing else of the
    optimizer, and leaves the gradient buffers as that many [zero_grad]
    make them from what the pass found. *)
Theorem validation_clears_gradients
    (criterion : tensor -> tensor -> result float) (dl : DataLoader)
    (epoch : nat) (w : world) (stats : EpochStats) :
  res (val_pass criterion dl epoch w) = inr stats ->
  let n := length (fst (dl_iter dl (generator w))) in
  optimizer_calls (events (val_pass criterion dl epoch w))
  = replicate n EvZeroGrad /\
  param_grads (final (val_pass criterion dl epoch w))
  = Nat.iter n zero_grad (param_grads w).
Proof. intros H. exact (val_pass_calls _ _ _ _ _ H). Qed.

Lemma optimizer_calls_times n :
  optimizer_calls (times n [EvZeroGrad; EvBackward; EvStep])
  = times n [EvZeroGrad; EvBackward; EvStep].
Proof.
  induction n as [|n IH]; [reflexivity|].
  rewrite times_S, optimizer_calls_app, IH. reflexivity.
Qed.

Lemma checkpoint_events_no_calls epoch vs evs :
  Forall (checkpoint_event epoch vs) evs -> optimizer_calls evs = [].
Proof.
  induction 1 as [|ev evs Hev _ IH]; [reflexivity|].
  destruct ev; cbn in Hev; try contradiction; exact IH.
Qed.

Lemma run_epoch_calls criterion n_epoch train_dl val_dl epoch w u :
  well_formed train_dl -> well_formed val_dl ->
  res (run_epoch criterion n_epoch train_dl val_dl epoch w) = inr u ->
  optimizer_calls (events (run_epoch criterion n_epoch train_dl val_dl
                                     epoch w))
  = calls_of_epoch (dl_len train_dl) (dl_len val_dl).
Proof.
  intros Wt Wv. unfold run_epoch. intros H.
  destruct (bind_returns _ _ _ _ H) as (ts & Hts & H1).
  rewrite (bind_inr _ _ _ _ Hts). cbn [events].
  destruct (bind_returns _ _ _ _ H1) as (vs & Hvs & H2).
  rewrite (bind_inr _ _ _ _ Hvs). cbn [events].
  destruct (bind_returns _ _ _ _ H2) as ([] & Hcp & H3).
  rewrite (bind_inr _ _ _ _ Hcp). cbn [events].
  destruct (record_epoch_returns _ _ _ _ _ _ H3) as (_ & _ & ->).
  cbn [recorded events].
  rewrite !optimizer_calls_app.
  rewrite (train_pass_calls _ _ _ _ Hts), optimizer_calls_times.
  rewrite (proj1 (val_pass_calls _ _ _ _ _ Hvs)).
  rewrite (checkpoint_events_no_calls epoch vs)
    by apply (checkpoint_locals vs epoch).
  rewrite (Wt _), (Wv _). cbn [optimizer_calls flat_map app].
  rewrite app_nil_r. reflexivity.
Qed.

Lemma epochs_calls criterion n_epoch train_dl val_dl n :
  well_formed train_dl -> well_formed val_dl ->
  forall a w u,
    res (for_each (seq a n) (run_epoch criterion n_epoch train_dl val_dl) w)
    = inr u ->
    optimizer_calls
      (events (for_each (seq a n)
                        (run_epoch criterion n_epoch train_dl val_dl) w))
    = times n (calls_of_epoch (dl_len train_dl) (dl_len val_dl)).
Proof.
  intros Wt Wv. induction n as [|n IH]; intros a w u; cbn [seq for_each].
  - reflexivity.
  - intros H. destruct (bind_returns _ _ _ _ H) as (u1 & H1 & H2).
    rewrite (bind_inr _ _ _ _ H1). cbn [events].
    rewrite optimizer_calls_app, (run_epoch_calls _ _ _ _ _ _ _ Wt Wv H1),
      (IH _ _ _ H2).
    reflexivity.
Qed.

Lemma steps_app (e1 e2 : list event) : steps (e1 ++ e2) = steps e1 + steps e2.
Proof. unfold steps. rewrite flat_map_app, length_app. reflexivity. Qed.

Lemma steps_optimizer_calls (evs : list event) :
  steps (optimizer_calls evs) = steps evs.
Proof.
  induction evs as [|ev evs IH]; [reflexivity|].
  change (ev :: evs) with ([ev] ++ evs).
  rewrite optimizer_calls_app, !steps_app, IH. f_equal.
  destruct ev; reflexivity.
Qed.

Lemma steps_calls_of_epoch nt nv : steps (calls_of_epoch nt nv) = nt.
Proof.
  unfold calls_of_epoch. rewrite steps_app.
  assert (H1 : steps (times nt [EvZeroGrad; EvBackward; EvStep]) = nt).
  { induction nt as [|nt IH]; [reflexivity|].
    rewrite times_S, steps_app, IH. reflexivity. }
  assert (H2 : steps (replicate nv EvZeroGrad) = 0).
  { induction nv as [|nv IH]; [reflexivity|]. exact IH. }
  rewrite H1, H2. lia.
Qed.

Lemma steps_times n (l : list event) : steps (times n l) = n * steps l.
Proof.
  induction n as [|n IH]; [reflexivity|].
  rewrite times_S, steps_app, IH. lia.
Qed.

(** X5. With loaders whose length is the number of their batches, the
    calls on the optimizer in a run of [train] that returns are, for each of
    the [n_epoch] epochs, [zero_grad], [backward], [step] for every training
    batch and then one [zero_grad] for every validation batch: in all
    [n_epoch * len(train)] steps. *)
Theorem optimizer_calls_of_run
    (criterion : tensor -> tensor -> result float) (n_epoch : nat)
    (train_dl val_dl : DataLoader) (w : world) (u : unit) :
  well_formed train_dl -> well_formed val_dl ->
  res (train criterion n_epoch train_dl val_dl w) = inr u ->
  optimizer_calls (events (train criterion n_epoch train_dl val_dl w))
  = times n_epoch (calls_of_epoch (dl_len train_dl) (dl_len val_dl)) /\
  steps (events (train criterion n_epoch train_dl val_dl w))
  = n_epoch * dl_len train_dl.
Proof.
  intros Wt Wv. rewrite train_unfold. set (w0 := set_ticks _ _).
  pose proof (epochs_calls criterion n_epoch train_dl val_dl n_epoch Wt Wv
                0 w0) as Hloop.
  destruct (res (for_each _ _ w0)) as [e|[]]; [discriminate|].
  intros _. cbn [events].
  assert (Hc : optimizer_calls
                 (events (for_each (seq 0 n_epoch)
                    (run_epoch criterion n_epoch train_dl val_dl) w0) ++
                  [EvPrintCompleted
                     (clock (final (for_each (seq 0 n_epoch)
                        (run_epoch criterion n_epoch train_dl val_dl) w0))
                        (ticks (final (for_each (seq 0 n_epoch)
                        (run_epoch criterion n_epoch train_dl val_dl) w0)))
                      - clock w (ticks w))])
               = times n_epoch
                   (calls_of_epoch (dl_len train_dl) (dl_len val_dl))).
  { rewrite optimizer_calls_app, (Hloop tt eq_refl).
    cbn [optimizer_calls flat_map]. apply app_nil_r. }
  split; [exact Hc|].
  rewrite <- steps_optimizer_calls, Hc, steps_times, steps_calls_of_epoch.
  reflexivity.
Qed.

(** ** The mode of the model *)

Lemma mode_kept_frame : Frame mode_kept.
Proof. split; unfold mode_kept; intros; congruence. Qed.

Ltac mode_leaf := unfold mode_kept; reflexivity.

Lemma train_loop_mode criterion bs :
  forall a b c, keeps mode_kept (train_loop criterion bs a b c).
Proof.
  induction bs as [|[inputs targets] rest IH]; intros a b c;
    cbn [train_loop]; keeps_struct mode_kept_frame mode_leaf.
Qed.

Lemma val_loop_mode criterion epoch bs :
  forall a b c, keeps mode_kept (val_loop criterion epoch bs a b c).
Proof.
  induction bs as [|[inputs targets] rest IH]; intros a b c;
    cbn [val_loop]; keeps_struct mode_kept_frame mode_leaf.
Qed.

Lemma train_pass_mode criterion dl w :
  model_training (final (train_pass criterion dl w)) = true.
Proof.
  rewrite train_pass_unfold.
  pose proof (train_loop_mode criterion) as Hloop.
  assert (H : keeps mode_kept
                (bind (train_loop criterion (fst (dl_iter dl (generator w)))
                                  0%float 0%float 0%float)
                      (fun sums => finalize sums (dl_len dl))))
    by keeps_struct mode_kept_frame mode_leaf.
  rewrite (H _). reflexivity.
Qed.

Lemma val_pass_mode criterion dl epoch w :
  model_training (final (val_pass criterion dl epoch w)) = false.
Proof.
  rewrite val_pass_unfold.
  pose proof (val_loop_mode criterion epoch) as Hloop.
  assert (H : keeps mode_kept
                (bind (val_loop criterion epoch
                                (fst (dl_iter dl (generator w)))
                                0%float 0%float 0%float)
                      (fun sums => finalize sums (dl_len dl))))
    by keeps_struct mode_kept_frame mode_leaf.
  rewrite (H _). reflexivity.
Qed.

Lemma checkpoint_mode vs epoch : keeps mode_kept (checkpoint vs epoch).
Proof. unfold checkpoint. keeps_struct mode_kept_frame mode_leaf. Qed.

Lemma run_epoch_mode criterion n_epoch train_dl val_dl epoch w u :
  res (run_epoch criterion n_epoch train_dl val_dl epoch w) = inr u ->
  model_training (final (run_epoch criterion n_epoch train_dl val_dl
                                   epoch w)) = false.
Proof.
  unfold run_epoch. intros H.
  destruct (bind_returns _ _ _ _ H) as (ts & Hts & H1).
  rewrite (bind_inr _ _ _ _ Hts). cbn [final].
  destruct (bind_returns _ _ _ _ H1) as (vs & Hvs & H2).
  rewrite (bind_inr _ _ _ _ Hvs). cbn [final].
  destruct (bind_returns _ _ _ _ H2) as ([] & Hcp & H3).
  rewrite (bind_inr _ _ _ _ Hcp). cbn [final].
  destruct (record_epoch_returns _ _ _ _ _ _ H3) as (_ & _ & ->).
  cbn [recorded final model_training set_val_losses set_train_losses].
  rewrite (checkpoint_mode vs epoch _). apply val_pass_mode.
Qed.

Lemma epochs_mode criterion n_epoch train_dl val_dl n :
  forall a w u,
    res (for_each (seq a n) (run_epoch criterion n_epoch train_dl val_dl) w)
    = inr u ->
    model_training
      (final (for_each (seq a n)
                       (run_epoch criterion n_epoch train_dl val_dl) w))
    = match n with 0 => model_training w | S _ => false end.
Proof.
  induction n as [|n IH]; intros a w u; cbn [seq for_each].
  - reflexivity.
  - intros H. destruct (bind_returns _ _ _ _ H) as (u1 & H1 & H2).
    rewrite (bind_inr _ _ _ _ H1). cbn [final].
    rewrite (IH _ _ _ H2). destruct n; [|reflexivity].
    exact (run_epoch_mode _ _ _ _ _ _ _ H1).
Qed.

(** X6. A training pass ends with the model in training mode and a
    validation pass with the model in evaluation mode, however they end. So
    a run of [train] that returns leaves the model in evaluation mode,
    unless [n_epoch] is 0, when it leaves the mode as it found it. *)
Theorem model_left_in_eval_mode
    (criterion : tensor -> tensor -> result float) (n_epoch : nat)
    (train_dl val_dl : DataLoader) (w : world) :
  let t := train criterion n_epoch train_dl val_dl w in
  (forall w', model_training (final (train_pass criterion train_dl w'))
              = true) /\
  (forall epoch w',
     model_training (final (val_pass criterion val_dl epoch w')) = false) /\
  (forall u, res t = inr u ->
     model_training (final t)
     = match n_epoch with 0 => model_training w | S _ => false end).
Proof.
  intros t.
  split; [intros w'; apply train_pass_mode|].
  split; [intros epoch w'; apply val_pass_mode|].
  subst t. rewrite train_unfold. set (w0 := set_ticks _ _).
  pose proof (epochs_mode criterion n_epoch train_dl val_dl n_epoch 0 w0)
    as Hloop.
  destruct (res (for_each _ _ w0)) as [e|[]]; [discriminate|].
  intros u _. cbn [final model_training set_ticks].
  exact (Hloop tt eq_refl).
Qed.

(** ** What a checkpoint holds *)

Lemma saved_models_app (e1 e2 : list event) :
  saved_models (e1 ++ e2) = saved_models e1 ++ saved_models e2.
Proof. apply flat_map_app. Qed.

Lemma training_events_unsaved evs :
  Forall training_event evs -> saved_models evs = [].
Proof.
  induction 1 as [|ev evs Hev _ IH]; [reflexivity|].
  destruct ev; cbn in Hev; try contradiction; exact IH.
Qed.

Lemma validation_events_unsaved epoch evs :
  Forall (validation_event epoch) evs -> saved_models evs = [].
Proof.
  induction 1 as [|ev evs Hev _ IH]; [reflexivity|].
  destruct ev; cbn in Hev; try contradiction; exact IH.
Qed.

Lemma checkpoint_unstepped vs epoch : keeps unstepped (checkpoint vs epoch).
Proof.
  unfold checkpoint.
  keeps_struct unstepped_frame
    ltac:(unfold unstepped; simpl; intuition discriminate).
Qed.

Lemma checkpoint_saved vs epoch w :
  saved_models (events (checkpoint vs epoch w))
  = if (best_psnr w <? psnr vs)%float
    then [(model_params w, optimizer_state w, epoch)]
    else [].
Proof.
  unfold checkpoint, save_model, read_outputs, save_output_images.
  exec. destruct (best_psnr w <? psnr vs)%float; [|reflexivity].
  exec. destruct (save_model_error _ _ _ _ _ _); exec; [reflexivity|].
  destruct (outputs w); exec; [|reflexivity].
  destruct (save_output_images_error _ _ _); exec; reflexivity.
Qed.

(** X7. In one epoch [save_model] is called at most once, and what it is
    given is the weights and the optimizer state as the training pass of
    that epoch left them, with the index of the epoch; when the epoch
    returns, these are also the weights and the optimizer state at its
    end. *)
Theorem checkpoint_holds_trained_weights
    (criterion : tensor -> tensor -> result float) (n_epoch : nat)
    (train_dl val_dl : DataLoader) (epoch : nat) (w : world) :
  let tp := train_pass criterion train_dl w in
  let r := run_epoch criterion n_epoch train_dl val_dl epoch w in
  (saved_models (events r) = [] \/
   saved_models (events r)
   = [(model_params (final tp), optimizer_state (final tp), epoch)]) /\
  (forall u, res r = inr u ->
     model_params (final r) = model_params (final tp) /\
     optimizer_state (final r) = optimizer_state (final tp)).
Proof.
  cbv zeta. unfold run_epoch.
  pose proof (train_pass_locals criterion train_dl w) as (_ & _ & _ & Et).
  apply training_events_unsaved in Et.
  destruct (res (train_pass criterion train_dl w)) as [ex|ts] eqn:Rt.
  { rewrite (bind_inl _ _ _ _ Rt). cbn [events res].
    split; [left; exact Et | discriminate]. }
  rewrite (bind_inr _ _ _ _ Rt). cbn [events final res].
  pose proof (val_pass_locals criterion val_dl epoch
                (final (train_pass criterion train_dl w)))
    as (_ & _ & _ & Ev).
  apply validation_events_unsaved in Ev.
  pose proof (val_pass_unstepped criterion val_dl epoch
                (final (train_pass criterion train_dl w)))
    as (Pv & Ov & _).
  destruct (res (val_pass criterion val_dl epoch
                   (final (train_pass criterion train_dl w))))
    as [ex|vs] eqn:Rv.
  { rewrite (bind_inl _ _ _ _ Rv). cbn [events res].
    rewrite saved_models_app, Et, Ev.
    split; [left; reflexivity | discriminate]. }
  rewrite (bind_inr _ _ _ _ Rv). cbn [events final res].
  pose proof (checkpoint_saved vs epoch
                (final (val_pass criterion val_dl epoch
                          (final (train_pass criterion train_dl w)))))
    as Hs.
  pose proof (checkpoint_unstepped vs epoch
                (final (val_pass criterion val_dl epoch
                          (final (train_pass criterion train_dl w)))))
    as (Pc & Oc & _).
  rewrite Pv, Ov in Hs.
  assert (Hcp : forall l,
             l = (if (best_psnr (final (val_pass criterion val_dl epoch
                          (final (train_pass criterion train_dl w))))
                      <? psnr vs)%float
                  then [(model_params (final (train_pass criterion train_dl w)),
                         optimizer_state
                           (final (train_pass criterion train_dl w)), epoch)]
                  else []) ->
             l = [] \/
             l = [(model_params (final (train_pass criterion train_dl w)),
                   optimizer_state (final (train_pass criterion train_dl w)),
                   epoch)])
    by (intros l ->; destruct (_ <? _)%float; auto).
  apply Hcp in Hs. clear Hcp.
  destruct (res (checkpoint vs epoch
                   (final (val_pass criterion val_dl epoch
                             (final (train_pass criterion train_dl w))))))
    as [ex|[]] eqn:Rc.
  { rewrite (bind_inl _ _ _ _ Rc). cbn [events res].
    rewrite !saved_models_app, Et, Ev.
    split; [exact Hs | discriminate]. }
  rewrite (bind_inr _ _ _ _ Rc). cbn [events final res].
  destruct (record_epoch_outcome n_epoch epoch ts vs
              (final (checkpoint vs epoch
                        (final (val_pass criterion val_dl epoch
                                  (final (train_pass criterion train_dl
                                                     w)))))))
    as [(_ & _ & ->) | (_ & -> & -> & _)].
  - cbn [recorded events final res].
    rewrite !saved_models_app, Et, Ev. cbn [saved_models flat_map app].
    rewrite app_nil_r.
    split; [exact Hs|]. intros u _.
    cbn [model_params optimizer_state set_val_losses set_train_losses].
    split; congruence.
  - rewrite !saved_models_app, Et, Ev. cbn [saved_models flat_map app].
    rewrite app_nil_r.
    split; [exact Hs | discriminate].
Qed.

(** ** The variable [outputs] on line 106 *)

(** 0.0 divided by a length is 0.0, or not a number for the length 0: never
    above 0.0. *)
Lemma zero_div_not_above (n : nat) : (0 <? tensor_div 0 n)%float = false.
Proof.
  unfold tensor_div. change (Prim2SF 0) with (S754_zero false).
  destruct (Prim2SF (float32_of_nat n)) as [s| s | | s m e];
    try destruct s; reflexivity.
Qed.

Lemma val_batch_values_outputs criterion epoch b w v :
  res (val_batch_values criterion epoch b w) = inr v ->
  exists outs,
    outputs (final (val_batch_values criterion epoch b w)) = Some outs.
Proof.
  unfold val_batch_values, optimizer_zero_grad, model, save_output_images.
  exec.
  destruct (fst (model_forward _ _ _ _)) as [e|outs]; exec;
    [discriminate|].
  repeat (match goal with
          | |- context [bind (call ?r) _ _] => destruct r as [?|?]
          end; exec; try discriminate).
  destruct (Nat.eqb _ 0); exec; [|intros _; exists outs; reflexivity].
  destruct (save_output_images_error _ _ _); exec; [discriminate|].
  intros _. exists outs. reflexivity.
Qed.

Lemma val_loop_outputs criterion epoch bs :
  bs <> [] ->
  forall a b c w s,
    res (val_loop criterion epoch bs a b c w) = inr s ->
    exists outs,
      outputs (final (val_loop criterion epoch bs a b c w)) = Some outs.
Proof.
  induction bs as [|[inputs targets] rest IH]; [contradiction|].
  intros _ a b c w s. rewrite val_loop_step. intros H.
  destruct (bind_returns _ _ _ _ H) as (v & Hv & Hrest).
  rewrite (bind_inr _ _ _ _ Hv). cbn [final].
  destruct rest as [|b' rest'].
  - exact (val_batch_values_outputs _ _ _ _ _ Hv).
  - exact (IH ltac:(discriminate) _ _ _ _ _ Hrest).
Qed.

Lemma val_pass_outputs criterion dl epoch w vs :
  res (val_pass criterion dl epoch w) = inr vs ->
  (0 <? psnr vs)%float = true ->
  fst (dl_iter dl (generator w)) <> [] /\
  exists outs,
    outputs (final (val_pass criterion dl epoch w)) = Some outs /\
    read_outputs (final (val_pass criterion dl epoch w))
    = mkOutcome [] (final (val_pass criterion dl epoch w)) (inr outs).
Proof.
  rewrite val_pass_unfold. intros H Hpos.
  destruct (bind_returns _ _ _ _ H) as (sums & Hloop & Hfin).
  pose proof (finalize_returns _ _ _ _ Hfin) as Hn.
  rewrite (bind_inr _ _ _ _ Hloop) in H |- *. cbn [final res] in H |- *.
  rewrite (finalize_pos _ _ _ Hn) in H |- *. cbn [final res] in H |- *.
  injection H as <-. cbn [psnr] in Hpos.
  assert (Hne : fst (dl_iter dl (generator w)) <> []).
  { intros Hnil. rewrite Hnil in Hloop. cbn in Hloop.
    injection Hloop as <-. cbn [psnr] in Hpos.
    rewrite zero_div_not_above in Hpos. discriminate. }
  split; [exact Hne|].
  destruct (val_loop_outputs criterion epoch _ Hne _ _ _ _ _ Hloop)
    as (outs & Ho).
  exists outs. split; [exact Ho|].
  unfold read_outputs. rewrite bind_gets, Ho. reflexivity.
Qed.

(** X8. When a validation pass returns statistics whose PSNR is above 0.0
    (the test of line 103, [best_psnr] being 0.0), the pass has run the
    model on at least one batch and the variable [outputs] is bound: the
    reading of [outputs] on line 106 returns and raises nothing. A pass
    over no batch returns a PSNR that is not above 0.0. *)
Theorem outputs_bound_when_checkpointing
    (criterion : tensor -> tensor -> result float) (dl : DataLoader)
    (epoch : nat) (w : world) (vs : EpochStats) :
  res (val_pass criterion dl epoch w) = inr vs ->
  (0 <? psnr vs)%float = true ->
  fst (dl_iter dl (generator w)) <> [] /\
  exists outs,
    outputs (final (val_pass criterion dl epoch w)) = Some outs /\
    read_outputs (final (val_pass criterion dl epoch w))
    = mkOutcome [] (final (val_pass criterion dl epoch w)) (inr outs).
Proof. intros H Hp. exact (val_pass_outputs _ _ _ _ _ H Hp). Qed.


(** ** The statistics of a checkpoint *)

Lemma saved_stats_app (e1 e2 : list event) :
  saved_stats (e1 ++ e2) = saved_stats e1 ++ saved_stats e2.
Proof. apply flat_map_app. Qed.

Lemma training_events_no_stats evs :
  Forall training_event evs -> saved_stats evs = [].
Proof.
  induction 1 as [|ev evs Hev _ IH]; [reflexivity|].
  destruct ev; cbn in Hev; try contradiction; exact IH.
Qed.

Lemma validation_events_no_stats epoch evs :
  Forall (validation_event epoch) evs -> saved_stats evs = [].
Proof.
  induction 1 as [|ev evs Hev _ IH]; [reflexivity|].
  destruct ev; cbn in Hev; try contradiction; exact IH.
Qed.

Lemma checkpoint_events_stats epoch vs evs :
  Forall (checkpoint_event epoch vs) evs ->
  Forall (fun x => x = (vs, epoch)) (saved_stats evs).
Proof.
  induction 1 as [|ev evs Hev _ IH]; [constructor|].
  destruct ev; cbn in Hev; try contradiction; cbn; try exact IH.
  destruct Hev as (-> & -> & -> & ->). constructor; [|exact IH].
  destruct vs; reflexivity.
Qed.

(** X9. In an epoch that returns, what [save_model] is given as loss, PSNR
    and SSIM are the validation means that the summary of the epoch shows,
    and the epoch it is given is the index of the loop, one below the
    number that the summary shows. *)
Theorem checkpoint_holds_summary_stats
    (criterion : tensor -> tensor -> result float) (n_epoch : nat)
    (train_dl val_dl : DataLoader) (epoch : nat) (w : world) (u : unit) :
  let r := run_epoch criterion n_epoch train_dl val_dl epoch w in
  res r = inr u ->
  exists ts vs,
    epoch_lines (events r) = [(epoch + 1, n_epoch, ts, vs)] /\
    Forall (fun x => x = (vs, epoch)) (saved_stats (events r)).
Proof.
  intros r Hres.
  destruct (run_epoch_events criterion n_epoch train_dl val_dl epoch w)
    as (_ & _ & _ & evt & evv & evc & evp & vs & Hev & Ht & Hv & Hc & _
        & Hend).
  fold r in Hev, Hend.
  destruct Hend as [(ex & Hex & _) | (ts & _ & -> & _)];
    [rewrite Hex in Hres; discriminate|].
  assert (Hsame : epoch_lines (events r) = [(epoch + 1, n_epoch, ts, vs)]).
  { destruct (training_events_silent _ Ht) as (_ & St & _).
    destruct (validation_events_silent _ _ Hv) as (_ & Sv & _).
    destruct (checkpoint_events_silent _ _ _ Hc) as (Sc & _).
    rewrite Hev, !epoch_lines_app, (no_summaries_no_lines _ St),
      (no_summaries_no_lines _ Sv), (no_summaries_no_lines _ Sc).
    reflexivity. }
  exists ts, vs. split; [exact Hsame|].
  rewrite Hev, !saved_stats_app, (training_events_no_stats _ Ht),
    (validation_events_no_stats _ _ Hv).
  cbn [app saved_stats flat_map]. rewrite app_nil_r.
  exact (checkpoint_events_stats _ _ _ Hc).
Qed.

(** ** The exceptions that [train] raises itself *)

Lemma bind_fails {A B} (m : M A) (k : A -> M B) w e :
  res (bind m k w) = inl e ->
  res (m w) = inl e \/
  exists a, res (m w) = inr a /\ res (k a (final (m w))) = inl e.
Proof.
  destruct (res (m w)) as [e'|a] eqn:R.
  - rewrite (bind_inl _ _ _ _ R). cbn [res]. intros [= <-]. left.
    reflexivity.
  - rewrite (bind_inr _ _ _ _ R). cbn [res]. intros H. right.
    exists a. split; [reflexivity | exact H].
Qed.

Section Own.

Variable criterion : tensor -> tensor -> result float.
Hypothesis Hown : collaborators_raise_their_own criterion.

Lemma composed_loss_own O T : own_answer (composed_loss criterion O T).
Proof.
  destruct Hown as (_ & Hc & Hg & Hm & _).
  unfold composed_loss, ReconstructionLoss, Features, PerceptualLoss.
  pose proof (Hc O T) as H1. destruct (criterion O T) as [e|rec]; [exact H1|].
  pose proof (Hg O) as H2. destruct (vgg O) as [e|FO]; [exact H2|].
  pose proof (Hg T) as H3. destruct (vgg T) as [e|FT]; [exact H3|].
  pose proof (Hm FO FT) as H4. destruct (mse_loss FO FT); [exact H4|exact I].
Qed.

(** One call of a collaborator: it answers, or the action ends with its
    exception. *)
Ltac own_call Hcl :=
  match goal with
  | |- context [bind (call ?r) _ _] =>
      let H := fresh "H" in
      assert (H : own_answer r) by (first [apply Hcl | auto]);
      revert H; destruct r as [?|?]; intros H; exec;
      [intros [= <-]; exact H|]
  end.

Lemma train_batch_values_fails b w e :
  res (train_batch_values criterion b w) = inl e -> foreign e.
Proof.
  pose proof composed_loss_own as Hcl.
  destruct Hown as (Hf & _ & _ & _ & Hp & Hs & Hb & Ho & _ & _).
  unfold train_batch_values, optimizer_zero_grad, model, loss_backward,
    optimizer_step_.
  exec. repeat own_call Hcl. discriminate.
Qed.

Lemma val_batch_values_fails epoch b w e :
  res (val_batch_values criterion epoch b w) = inl e -> foreign e.
Proof.
  pose proof composed_loss_own as Hcl.
  destruct Hown as (Hf & _ & _ & _ & Hp & Hs & _ & _ & _ & Hi).
  unfold val_batch_values, optimizer_zero_grad, model, save_output_images.
  exec. repeat own_call Hcl.
  destruct (Nat.eqb _ 0); exec; [|discriminate].
  match goal with
  | |- context [save_output_images_error ?o ?ep ?b] =>
      pose proof (Hi o ep b) as Himg;
      destruct (save_output_images_error o ep b); exec
  end; [intros [= <-]; exact Himg | discriminate].
Qed.

Lemma train_loop_fails bs :
  forall a b c w e,
    res (train_loop criterion bs a b c w) = inl e -> foreign e.
Proof.
  induction bs as [|[inputs targets] rest IH]; intros a b c w e.
  - discriminate.
  - rewrite train_loop_step. intros H.
    destruct (bind_fails _ _ _ _ H) as [H1 | (v & _ & H1)].
    + exact (train_batch_values_fails _ _ _ H1).
    + exact (IH _ _ _ _ _ H1).
Qed.

Lemma val_loop_fails epoch bs :
  forall a b c w e,
    res (val_loop criterion epoch bs a b c w) = inl e -> foreign e.
Proof.
  induction bs as [|[inputs targets] rest IH]; intros a b c w e.
  - discriminate.
  - rewrite val_loop_step. intros H.
    destruct (bind_fails _ _ _ _ H) as [H1 | (v & _ & H1)].
    + exact (val_batch_values_fails _ _ _ _ H1).
    + exact (IH _ _ _ _ _ H1).
Qed.

Lemma finalize_fails sums n w e :
  res (finalize sums n w) = inl e -> e = ZeroDivisionError /\ n = 0.
Proof.
  destruct n as [|n].
  - rewrite finalize_zero. intros [= <-]. auto.
  - rewrite finalize_pos by discriminate. discriminate.
Qed.

Lemma train_pass_fails dl w e :
  res (train_pass criterion dl w) = inl e ->
  foreign e \/ (e = ZeroDivisionError /\ dl_len dl = 0).
Proof.
  rewrite train_pass_unfold. intros H.
  destruct (bind_fails _ _ _ _ H) as [H1 | (sums & _ & H1)].
  - left. exact (train_loop_fails _ _ _ _ _ _ H1).
  - right. exact (finalize_fails _ _ _ _ H1).
Qed.

Lemma val_pass_fails dl epoch w e :
  res (val_pass criterion dl epoch w) = inl e ->
  foreign e \/ (e = ZeroDivisionError /\ dl_len dl = 0).
Proof.
  rewrite val_pass_unfold. intros H.
  destruct (bind_fails _ _ _ _ H) as [H1 | (sums & _ & H1)].
  - left. exact (val_loop_fails _ _ _ _ _ _ _ H1).
  - right. exact (finalize_fails _ _ _ _ H1).
Qed.

(** With [outputs] bound whenever the test of line 103 holds, the
    checkpoint fails with the exception of a writer only. *)
Lemma checkpoint_fails vs epoch w e :
  ((best_psnr w <? psnr vs)%float = true ->
   exists outs, outputs w = Some outs) ->
  res (checkpoint vs epoch w) = inl e -> foreign e.
Proof.
  destruct Hown as (_ & _ & _ & _ & _ & _ & _ & _ & Hm & Hi).
  intros Hout.
  unfold checkpoint, save_model, read_outputs, save_output_images.
  exec. destruct (best_psnr w <? psnr vs)%float; [|discriminate].
  destruct Hout as (outs & Ho); [reflexivity|].
  exec.
  match goal with
  | |- context [save_model_error ?p ?o ?l ?q ?s ?ep] =>
      pose proof (Hm p o l q s ep) as H1;
      destruct (save_model_error p o l q s ep); exec
  end; [intros [= <-]; exact H1|].
  rewrite Ho. exec.
  pose proof (Hi outs epoch true) as H2.
  destruct (save_output_images_error outs epoch true); exec;
    [intros [= <-]; exact H2 | discriminate].
Qed.

(** An epoch that starts with [best_psnr] at 0.0 and [epoch] inside both
    histories. *)
Lemma run_epoch_fails n_epoch train_dl val_dl epoch w e :
  best_psnr w = 0%float ->
  epoch < length (train_losses w) -> epoch < length (val_losses w) ->
  res (run_epoch criterion n_epoch train_dl val_dl epoch w) = inl e ->
  expected train_dl val_dl e.
Proof.
  intros Hb Ht Hv. unfold run_epoch, expected. intros H.
  destruct (bind_fails _ _ _ _ H) as [H1 | (ts & Hts & H1)].
  { destruct (train_pass_fails _ _ _ H1) as [Hf | (-> & Hn)]; auto. }
  destruct (bind_fails _ _ _ _ H1) as [H2 | (vs & Hvs & H2)].
  { destruct (val_pass_fails _ _ _ _ H2) as [Hf | (-> & Hn)]; auto. }
  pose proof (train_pass_locals criterion train_dl w) as (T1 & V1 & B1 & _).
  pose proof (val_pass_locals criterion val_dl epoch
                (final (train_pass criterion train_dl w)))
    as (T2 & V2 & B2 & _).
  destruct (bind_fails _ _ _ _ H2) as [H3 | ([] & _ & H3)].
  { left. apply (checkpoint_fails _ _ _ _ ltac:(
      rewrite B2, B1, Hb; intros Hpos;
      destruct (val_pass_outputs _ _ _ _ _ Hvs Hpos) as (_ & outs & Ho & _);
      exists outs; exact Ho) H3). }
  pose proof (checkpoint_locals vs epoch
                (final (val_pass criterion val_dl epoch
                          (final (train_pass criterion train_dl w)))))
    as (T3 & V3 & _).
  destruct (record_epoch_outcome n_epoch epoch ts vs
              (final (checkpoint vs epoch
                        (final (val_pass criterion val_dl epoch
                                  (final (train_pass criterion train_dl
                                                     w)))))))
    as [(_ & _ & Hrec) | (Hout & _)].
  - rewrite Hrec in H3. discriminate.
  - rewrite T3, T2, T1, V3, V2, V1 in Hout. lia.
Qed.

Lemma epochs_fail n_epoch train_dl val_dl n :
  forall a w e,
    best_psnr w = 0%float ->
    a + n <= length (train_losses w) -> a + n <= length (val_losses w) ->
    res (for_each (seq a n) (run_epoch criterion n_epoch train_dl val_dl) w)
    = inl e ->
    expected train_dl val_dl e.
Proof.
  induction n as [|n IH]; intros a w e Hb Ht Hv; cbn [seq for_each].
  - discriminate.
  - intros H.
    destruct (bind_fails _ _ _ _ H) as [H1 | ([] & _ & H1)].
    + apply (run_epoch_fails n_epoch train_dl val_dl a w e Hb); [lia|lia|].
      exact H1.
    + destruct (run_epoch_observed criterion n_epoch train_dl val_dl a w)
        as (Hb' & _).
      destruct (run_epoch_lengths criterion n_epoch train_dl val_dl a w)
        as (Lt & Lv).
      apply (IH (S a) (final (run_epoch criterion n_epoch train_dl val_dl
                                        a w)) e);
        [congruence | lia | lia | exact H1].
Qed.

Lemma train_fails n_epoch train_dl val_dl w e :
  res (train criterion n_epoch train_dl val_dl w) = inl e ->
  expected train_dl val_dl e.
Proof.
  rewrite train_unfold. set (w0 := set_ticks _ _).
  destruct (res (for_each _ _ w0)) as [e'|[]] eqn:R; [|discriminate].
  intros [= <-].
  apply (epochs_fail n_epoch train_dl val_dl n_epoch 0 w0 e' eq_refl);
    [| | exact R];
    cbn [w0 train_losses val_losses set_ticks set_best_psnr set_val_losses
         set_train_losses Nat.add];
    rewrite length_replicate; lia.
Qed.

End Own.


(** ** The best-flagged images *)

Lemma val_loop_app criterion epoch bs1 bs2 :
  forall a b c w,
    val_loop criterion epoch (bs1 ++ bs2) a b c w =
    bind (val_loop criterion epoch bs1 a b c)
         (fun s => val_loop criterion epoch bs2 (loss s) (psnr s) (ssim s))
         w.
Proof.
  induction bs1 as [|[inputs targets] rest IH]; intros a b c w.
  - cbn [app val_loop]. rewrite bind_ret_l. reflexivity.
  - cbn [app]. rewrite val_loop_step.
    rewrite (bind_cong_l _ _ _ _
               (val_loop_step criterion epoch inputs targets rest a b c w)).
    rewrite bind_assoc.
    apply bind_ext. intros v w1. apply IH.
Qed.

Lemma val_batch_values_answer criterion epoch b w v :
  res (val_batch_values criterion epoch b w) = inr v ->
  exists outs,
    fst (model_forward (model_params w) (model_training w) (fst b)
                       (generator w)) = inr outs /\
    outputs (final (val_batch_values criterion epoch b w)) = Some outs.
Proof.
  unfold val_batch_values, optimizer_zero_grad, model, save_output_images.
  exec. cbn [model_params model_training generator set_param_grads].
  destruct (fst (model_forward _ _ _ _)) as [e|outs]; exec;
    [discriminate|].
  repeat (match goal with
          | |- context [bind (call ?r) _ _] => destruct r as [?|?]
          end; exec; try discriminate).
  destruct (Nat.eqb _ 0); exec;
    [|intros _; exists outs; split; reflexivity].
  destruct (save_output_images_error _ _ _); exec; [discriminate|].
  intros _. exists outs. split; reflexivity.
Qed.

Lemma checkpoint_best_images vs epoch w :
  images true (events (checkpoint vs epoch w)) = [] \/
  exists outs,
    outputs w = Some outs /\
    images true (events (checkpoint vs epoch w)) = [(outs, epoch)].
Proof.
  unfold checkpoint, save_model, read_outputs, save_output_images.
  exec. destruct (best_psnr w <? psnr vs)%float; [|left; reflexivity].
  exec. destruct (save_model_error _ _ _ _ _ _); exec; [left; reflexivity|].
  destruct (outputs w) as [outs|]; exec; [|left; reflexivity].
  right. exists outs. split; [reflexivity|].
  destruct (save_output_images_error _ _ _); exec; reflexivity.
Qed.

(** X11. The best-flagged images of an epoch, if any, are what the variable
    [outputs] holds when the validation pass of that epoch has ended; and
    when the loop over the validation batches returns, that is what the
    model answered on the last batch, in the state that the batches before
    it left. *)
Theorem best_images_are_last_outputs
    (criterion : tensor -> tensor -> result float) (n_epoch : nat)
    (train_dl val_dl : DataLoader) (epoch : nat) (w : world) :
  let tp := train_pass criterion train_dl w in
  let vp := val_pass criterion val_dl epoch (final tp) in
  let r := run_epoch criterion n_epoch train_dl val_dl epoch w in
  (images true (events r) = [] \/
   exists outs,
     outputs (final vp) = Some outs /\
     images true (events r) = [(outs, epoch)]) /\
  (forall stats w', res (val_pass criterion val_dl epoch w') = inr stats ->
     outputs (final (val_pass criterion val_dl epoch w'))
     = outputs (final (val_loop criterion epoch
                         (fst (dl_iter val_dl (generator w')))
                         0%float 0%float 0%float
                         (set_generator (snd (dl_iter val_dl (generator w')))
                            (set_model_training false w'))))) /\
  (forall pre inputs targets a b c w' s,
     res (val_loop criterion epoch (pre ++ [(inputs, targets)]) a b c w')
     = inr s ->
     exists outs,
       fst (model_forward
              (model_params (final (val_loop criterion epoch pre a b c w')))
              (model_training (final (val_loop criterion epoch pre a b c w')))
              inputs
              (generator (final (val_loop criterion epoch pre a b c w'))))
       = inr outs /\
       outputs (final (val_loop criterion epoch (pre ++ [(inputs, targets)])
                                a b c w'))
       = Some outs).
Proof.
  cbv zeta. split; [|split].
  - unfold run_epoch.
    pose proof (train_pass_locals criterion train_dl w) as (_ & _ & _ & Et).
    destruct (training_events_silent _ Et) as (_ & _ & It).
    destruct (res (train_pass criterion train_dl w)) as [ex|ts] eqn:Rt.
    { rewrite (bind_inl _ _ _ _ Rt). cbn [events]. left. apply It. }
    rewrite (bind_inr _ _ _ _ Rt). cbn [events final].
    pose proof (val_pass_locals criterion val_dl epoch
                  (final (train_pass criterion train_dl w)))
      as (_ & _ & _ & Ev).
    destruct (validation_events_silent _ _ Ev) as (_ & _ & Iv & _).
    destruct (res (val_pass criterion val_dl epoch
                     (final (train_pass criterion train_dl w))))
      as [ex|vs] eqn:Rv.
    { rewrite (bind_inl _ _ _ _ Rv). cbn [events].
      left. rewrite images_app, It, Iv. reflexivity. }
    rewrite (bind_inr _ _ _ _ Rv). cbn [events final].
    pose proof (checkpoint_best_images vs epoch
                  (final (val_pass criterion val_dl epoch
                            (final (train_pass criterion train_dl w)))))
      as Hc.
    destruct (res (checkpoint vs epoch
                     (final (val_pass criterion val_dl epoch
                               (final (train_pass criterion train_dl w))))))
      as [ex|[]] eqn:Rc.
    { rewrite (bind_inl _ _ _ _ Rc). cbn [events].
      rewrite !images_app, It, Iv. exact Hc. }
    rewrite (bind_inr _ _ _ _ Rc). cbn [events final].
    destruct (record_epoch_outcome n_epoch epoch ts vs
                (final (checkpoint vs epoch
                          (final (val_pass criterion val_dl epoch
                                    (final (train_pass criterion train_dl
                                                       w)))))))
      as [(_ & _ & ->) | (_ & _ & -> & _)];
      cbn [recorded events];
      rewrite !images_app, It, Iv; cbn [images flat_map app];
      rewrite app_nil_r; exact Hc.
  - intros stats w'. rewrite val_pass_unfold. intros H.
    destruct (bind_returns _ _ _ _ H) as (sums & Hloop & Hfin).
    rewrite (bind_inr _ _ _ _ Hloop). cbn [final].
    rewrite (finalize_pos _ _ _ (finalize_returns _ _ _ _ Hfin)).
    reflexivity.
  - intros pre inputs targets a b c w' s. rewrite val_loop_app. intros H.
    destruct (bind_returns _ _ _ _ H) as (s1 & Hpre & Hlast).
    rewrite (bind_inr _ _ _ _ Hpre). cbn [final].
    rewrite val_loop_step in Hlast |- *.
    destruct (bind_returns _ _ _ _ Hlast) as (v & Hv & _).
    rewrite (bind_inr _ _ _ _ Hv). cbn [final val_loop ret].
    exact (val_batch_values_answer _ _ _ _ _ Hv).
Qed.

End Properties.

(** ** The scenario of section 8: validation PSNR 20.0, then 18.0 *)

(** C1. Two epochs of one training batch and one validation batch, with
    validation PSNR 20.0 and then 18.0: [train] writes a checkpoint after
    both epochs, where the policy of the specification writes one after the
    first only. *)
Lemma checkpoint_after_lower_psnr :
  let t := @train (scripted psnr_20_then_18) mse_loss 2
                  (one_batch _) (one_batch _) (start _) in
  map (fun s => psnr (snd s)) (summaries (events t)) = [20%float; 18%float] /\
  checkpoints (events t) = [(0, 20%float); (1, 18%float)] /\
  checkpoints_spec 0%float 0 [20%float; 18%float] = [(0, 20%float)].
Proof. vm_compute. repeat split; reflexivity. Qed.

(** C2. In the same run the validation PSNR of the first epoch, 20.0, is
    above [best_psnr], and [best_psnr] is still 0.0 after that epoch and at
    the end, where the record of the specification is 20.0. *)
Lemma best_psnr_not_raised :
  let t1 := @train (scripted psnr_20_then_18) mse_loss 1
                   (one_batch _) (one_batch _) (start _) in
  let t2 := @train (scripted psnr_20_then_18) mse_loss 2
                   (one_batch _) (one_batch _) (start _) in
  map (fun s => psnr (snd s)) (summaries (events t1)) = [20%float] /\
  best_psnr (final t1) = 0%float /\
  best_psnr (final t2) = 0%float /\
  best_record_spec [20%float] = 20%float /\
  best_record_spec [20%float; 18%float] = 20%float.
Proof. vm_compute. repeat split; reflexivity. Qed.

(** C5, as the specification has it, fails on the validation pass of the
    twentieth epoch over two batches: the pass writes the images of both. *)
Lemma two_emissions_in_one_epoch : ~ one_emission_per_qualifying_epoch.
Proof.
  intros H.
  pose (v := @val_pass (scripted psnr_20_then_18) mse_loss
                       (two_batches _) 19 (start _)).
  assert (E : exists stats, res v = inr stats)
    by (vm_compute; eexists; reflexivity).
  destruct E as (stats & E).
  destruct (H (scripted psnr_20_then_18) mse_loss (two_batches _) 19
              (start _) stats eq_refl E) as (outs & tag & Himg & _).
  vm_compute in Himg. discriminate Himg.
Qed.

(** A run in which the model raises in the first validation pass. *)
Lemma exception_ends_run_witness :
  let t := @train (scripted fails_after_one_step) mse_loss 2
                  (one_batch _) (one_batch _) (start _) in
  In (EvRaise (Raised "CUDA out of memory")) (events t) /\
  (res t = inl (Raised "CUDA out of memory") /\
   raised (events t) = [Raised "CUDA out of memory"] /\
   (exists pre, events t = pre ++ [EvRaise (Raised "CUDA out of memory")]) /\
   length (summaries (events t)) < 2 /\
   forall j, length (summaries (events t)) <= j < 2 ->
     train_losses (final t) !! j = Some 0%float /\
     val_losses (final t) !! j = Some 0%float).
Proof.
  intros t.
  assert (H : In (EvRaise (Raised "CUDA out of memory")) (events t)).
  { vm_compute. repeat (first [left; reflexivity | right]). }
  split; [exact H|].
  exact (@exception_ends_run (scripted fails_after_one_step) mse_loss 2
           (one_batch _) (one_batch _) (start _) _ H).
Defined.

(** A loader of two batches. *)
Lemma epoch_stats_are_means_witness :
  well_formed (two_batches psnr_20_then_18) /\
  0 < dl_len (two_batches psnr_20_then_18) /\
  @train_pass (scripted psnr_20_then_18) mse_loss (two_batches _) (start _)
  = train_pass_spec mse_loss (two_batches _) (start _) /\
  @val_pass (scripted psnr_20_then_18) mse_loss (two_batches _) 0 (start _)
  = val_pass_spec mse_loss (two_batches _) 0 (start _).
Proof.
  assert (Hwf : well_formed (two_batches psnr_20_then_18))
    by (intros g; reflexivity).
  assert (Hpos : 0 < dl_len (two_batches psnr_20_then_18))
    by (cbn; lia).
  split; [exact Hwf|]. split; [exact Hpos|].
  exact (@epoch_stats_are_means (scripted psnr_20_then_18) mse_loss
           (two_batches _) 0 (start _) Hwf Hpos).
Defined.

(** A loader of no batch. *)
Lemma empty_loader_fails_witness :
  dl_len (no_batches psnr_20_then_18) = 0 /\
  well_formed (no_batches psnr_20_then_18) /\
  res (@train_pass (scripted psnr_20_then_18) mse_loss
         (no_batches _) (start _)) = inl ZeroDivisionError.
Proof.
  assert (H0 : dl_len (no_batches psnr_20_then_18) = 0) by reflexivity.
  assert (Hwf : well_formed (no_batches psnr_20_then_18))
    by (intros g; reflexivity).
  split; [exact H0|]. split; [exact Hwf|].
  exact (proj1 (proj2 (proj2
    (@empty_loader_fails (scripted psnr_20_then_18) mse_loss 2
       (no_batches _) (one_batch _) 0 (start _) H0 Hwf)))).
Defined.

(** A training pass over two batches. *)
Lemma training_pass_calls_witness :
  res (@train_pass (scripted psnr_20_then_18) mse_loss (two_batches _)
         (start _))
  = inr (mkStats 255 12.5 1) /\
  events (@train_pass (scripted psnr_20_then_18) mse_loss (two_batches _)
            (start _))
  = [EvZeroGrad; EvBackward; EvStep; EvZeroGrad; EvBackward; EvStep].
Proof.
  assert (H : res (@train_pass (scripted psnr_20_then_18) mse_loss
                     (two_batches _) (start _))
              = inr (mkStats 255 12.5 1)) by (vm_compute; reflexivity).
  split; [exact H|].
  exact (@training_pass_calls (scripted psnr_20_then_18) mse_loss
           (two_batches _) (start _) _ H).
Defined.

(** A validation pass over two batches. *)
Lemma validation_clears_gradients_witness :
  res (@val_pass (scripted psnr_20_then_18) mse_loss (two_batches _) 0
         (start _))
  = inr (mkStats 18.75 5 1) /\
  optimizer_calls
    (events (@val_pass (scripted psnr_20_then_18) mse_loss (two_batches _) 0
               (start _)))
  = [EvZeroGrad; EvZeroGrad] /\
  param_grads
    (final (@val_pass (scripted psnr_20_then_18) mse_loss (two_batches _) 0
              (start _)))
  = 0.
Proof.
  assert (H : res (@val_pass (scripted psnr_20_then_18) mse_loss
                     (two_batches _) 0 (start _))
              = inr (mkStats 18.75 5 1)) by (vm_compute; reflexivity).
  split; [exact H|].
  exact (@validation_clears_gradients (scripted psnr_20_then_18) mse_loss
           (two_batches _) 0 (start _) _ H).
Defined.

(** Two epochs over two training batches and one validation batch. *)
Lemma optimizer_calls_of_run_witness :
  well_formed (two_batches psnr_20_then_18) /\
  well_formed (one_batch psnr_20_then_18) /\
  res (@train (scripted psnr_20_then_18) mse_loss 2 (two_batches _)
         (one_batch _) (start _)) = inr tt /\
  steps (events (@train (scripted psnr_20_then_18) mse_loss 2
                   (two_batches _) (one_batch _) (start _))) = 4.
Proof.
  assert (Wt : well_formed (two_batches psnr_20_then_18))
    by (intros g; reflexivity).
  assert (Wv : well_formed (one_batch psnr_20_then_18))
    by (intros g; reflexivity).
  assert (H : res (@train (scripted psnr_20_then_18) mse_loss 2
                     (two_batches _) (one_batch _) (start _)) = inr tt)
    by (vm_compute; reflexivity).
  split; [exact Wt|]. split; [exact Wv|]. split; [exact H|].
  exact (proj2 (@optimizer_calls_of_run (scripted psnr_20_then_18) mse_loss
                  2 (two_batches _) (one_batch _) (start _) tt Wt Wv H)).
Defined.

(** A validation pass whose PSNR is 5.0. *)
Lemma outputs_bound_when_checkpointing_witness :
  res (@val_pass (scripted psnr_20_then_18) mse_loss (one_batch _) 0
         (start _))
  = inr (mkStats 24 5 1) /\
  (0 <? 5)%float = true /\
  exists outs,
    outputs (final (@val_pass (scripted psnr_20_then_18) mse_loss
                      (one_batch _) 0 (start _))) = Some outs.
Proof.
  assert (H : res (@val_pass (scripted psnr_20_then_18) mse_loss
                     (one_batch _) 0 (start _))
              = inr (mkStats 24 5 1)) by (vm_compute; reflexivity).
  assert (Hp : (0 <? psnr (mkStats 24 5 1))%float = true) by reflexivity.
  split; [exact H|]. split; [exact Hp|].
  destruct (@outputs_bound_when_checkpointing (scripted psnr_20_then_18)
              mse_loss (one_batch _) 0 (start _) _ H Hp)
    as (_ & outs & Ho & _).
  exists outs. exact Ho.
Defined.


(** The first epoch of the run of section 8. *)
Lemma checkpoint_holds_summary_stats_witness :
  res (@run_epoch (scripted psnr_20_then_18) mse_loss 2 (one_batch _)
         (one_batch _) 0 (loop_start _ 2)) = inr tt /\
  exists ts vs,
    epoch_lines (events (@run_epoch (scripted psnr_20_then_18) mse_loss 2
                           (one_batch _) (one_batch _) 0 (loop_start _ 2)))
    = [(0 + 1, 2, ts, vs)] /\
    Forall (fun x => x = (vs, 0))
           (saved_stats (events (@run_epoch (scripted psnr_20_then_18)
                                   mse_loss 2 (one_batch _) (one_batch _) 0
                                   (loop_start _ 2)))).
Proof.
  assert (H : res (@run_epoch (scripted psnr_20_then_18) mse_loss 2
                     (one_batch _) (one_batch _) 0 (loop_start _ 2))
              = inr tt)
    by (vm_compute; reflexivity).
  split; [exact H|].
  exact (@checkpoint_holds_summary_stats (scripted psnr_20_then_18)
           mse_loss 2 (one_batch _) (one_batch _) 0 (loop_start _ 2) tt H).
Defined.


(** ** Float32 at work *)

(** The PSNR of a training pass over two batches of PSNR 0.1 and 0.2 (the
    nearest float32) is their mean in float32, 0.15000000596046448; in
    binary64 the mean of the same two numbers is 0.15000000223517418. *)
Example psnr_mean_in_float32 :
  (exists stats,
     res (@train_pass (scripted tenth_then_fifth) mse_loss (two_batches _)
            (start _)) = inr stats /\
     psnr stats = 0x1.333334p-3%float) /\
  tensor_mean [0x1.99999ap-4; 0x1.99999ap-3]%float = 0x1.333334p-3%float /\
  arithmetic_mean [0x1.99999ap-4; 0x1.99999ap-3]%float
  = 0x1.3333338p-3%float.
Proof.
  split; [|split; vm_compute; reflexivity].
  vm_compute. eexists. split; reflexivity.
Qed.

(** The composed loss of the output 4096.0 for the target 1.0, with the
    identity for features: 16769025 + 0.5 * 16769025 is 25153538 in
    float32, and 25153537.5 in binary64. *)
Example composed_loss_in_float32 :
  @composed_loss (scripted psnr_20_then_18) mse_loss 4096%float 1%float
  = inr 25153538%float /\
  (16769025 + 0.5 * 16769025)%float = 25153537.5%float.
Proof. split; vm_compute; reflexivity. Qed.

End Train.
